(** * EUI components: selectable list toggles, super update button,
      relative-time parsing

    A shallow embedding of three pieces of the component library:

    - [SelectableList]: the click handlers of [EuiSelectableList]
      ([onAddOrRemoveOption], [onAddOption], [onRemoveOption],
      [onExcludeOption]) over an explicit JavaScript heap, because the
      handlers compare options by reference and one of them writes to its
      argument in place;
    - [SuperUpdateButton]: [render], the lifecycle methods and the tooltip
      timer of [EuiSuperUpdateButton], over a logical clock;
    - [QuickSelect]: [parseTimeParts], whose body is not part of the sources
      at hand (only its test-suite is). *)

From Stdlib Require Import ZArith Ascii.
From Stdlib Require DecimalString DecimalNat QArith.
From stdpp Require Import gmap strings list fin_maps.

(** ** A small JavaScript store *)

Module Js.

(** References are positions in the store. *)
Definition loc := nat.

Inductive val :=
| VUndefined
| VNull
| VBool (b : bool)
| VNum (n : Z)
| VStr (s : string)
| VRef (l : loc).

#[global] Instance val_eq_dec : EqDecision val.
Proof. solve_decision. Defined.

(** [ToBoolean]: what [if (v)] tests. *)
Definition truthy (v : val) : bool :=
  match v with
  | VUndefined | VNull => false
  | VBool b => b
  | VNum n => negb (n =? 0)%Z
  | VStr s => negb (bool_decide (s = ""))
  | VRef _ => true
  end.

(** [a === b] on the values above. *)
Definition strictEq (a b : val) : bool := bool_decide (a = b).

(** A store cell is a plain object (own enumerable properties by key) or an
    array of option references. *)
Inductive cell :=
| CObj (o : gmap string val)
| CArr (a : list loc).

(** [o.k]: a missing key reads as [undefined]. *)
Definition get (o : gmap string val) (k : string) : val :=
  default VUndefined (o !! k).

(** [new]: the fresh reference is the next free position. *)
Definition alloc (c : cell) (h : list cell) : loc * list cell :=
  (length h, h ++ [c]).

Definition getObj (h : list cell) (l : loc) : option (gmap string val) :=
  match h !! l with
  | Some (CObj o) => Some o
  | _ => None
  end.

Definition getArr (h : list cell) (l : loc) : option (list loc) :=
  match h !! l with
  | Some (CArr a) => Some a
  | _ => None
  end.

(** [arr.map(option => { const updatedOption = { ...option }; ...; return
    updatedOption; })]: every element is spread into a fresh object, the
    callback body [f] (given the element's reference and its properties)
    edits the copy, and the copies are collected in order.  [None] only when
    an element is not an object of the store, which TypeScript's
    [EuiSelectableOption[]] excludes. *)
Fixpoint mapSpread (f : loc → gmap string val → gmap string val)
    (arr : list loc) (h : list cell) : option (list loc * list cell) :=
  match arr with
  | [] => Some ([], h)
  | option :: rest =>
      match getObj h option with
      | Some o =>
          let '(updatedOption, h1) := alloc (CObj (f option o)) h in
          match mapSpread f rest h1 with
          | Some (ls, h2) => Some (updatedOption :: ls, h2)
          | None => None
          end
      | None => None
      end
  end.

End Js.

(** ** EuiSelectableList *)

Module SelectableList.
Import Js.

(** [singleSelection?: 'always' | boolean] *)
Inductive SingleSelection :=
| SingleUnset
| SingleBool (b : bool)
| SingleAlways.

#[global] Instance SingleSelection_eq_dec : EqDecision SingleSelection.
Proof. solve_decision. Defined.

(** The props the click handlers read.  [onOptionClick] is the owner's
    callback; its invocations are recorded in the trace below. *)
Record Props := {
  options : loc;
  singleSelection : SingleSelection;
  allowExclusions : option bool;
}.

(** [if (singleSelection)] *)
Definition singleSelectionOn (ss : SingleSelection) : bool :=
  match ss with
  | SingleUnset => false
  | SingleBool b => b
  | SingleAlways => true
  end.

(** [... && allowExclusions] *)
Definition exclusionsOn (a : option bool) : bool := default false a.

Inductive toggle := Exclude | Remove | Add.

#[global] Instance toggle_eq_dec : EqDecision toggle.
Proof. solve_decision. Defined.

(** What a handler does that the outside can see: entering one of the three
    private handlers, and calling [onOptionClick] with an array. *)
Inductive event :=
| Toggle (t : toggle) (option : loc)
| OptionClick (updatedOptions : loc).

#[global] Instance event_eq_dec : EqDecision event.
Proof. solve_decision. Defined.

Record state := {
  heap : list cell;
  trace : list event;
}.

Definition emit (e : event) (s : state) : state :=
  {| heap := heap s; trace := trace s ++ [e] |}.

(** The three [map] callbacks. *)

Definition addUpdated (ss : SingleSelection) (addedOption : loc)
    (option : loc) (o : gmap string val) : gmap string val :=
  let updatedOption := o in
  let updatedOption :=
    if singleSelectionOn ss then delete "checked" updatedOption
    else updatedOption in
  if bool_decide (option = addedOption)
  then <["checked" := VStr "on"]> updatedOption
  else updatedOption.

Definition removeUpdated (ss : SingleSelection) (removedOption : loc)
    (option : loc) (o : gmap string val) : gmap string val :=
  let updatedOption := o in
  if bool_decide (option = removedOption)
     && negb (bool_decide (ss = SingleAlways))
  then delete "checked" updatedOption
  else updatedOption.

Definition excludeUpdated (excludedOption : loc)
    (option : loc) (o : gmap string val) : gmap string val :=
  let updatedOption := o in
  if bool_decide (option = excludedOption)
  then <["checked" := VStr "off"]> updatedOption
  else updatedOption.

(** [const updatedOptions = options.map(f); onOptionClick(updatedOptions);] *)
Definition mapAndNotify (f : loc → gmap string val → gmap string val)
    (P : Props) (s : state) : option state :=
  match getArr (heap s) (options P) with
  | Some arr =>
      match mapSpread f arr (heap s) with
      | Some (ls, h1) =>
          let '(updatedOptions, h2) := alloc (CArr ls) h1 in
          Some (emit (OptionClick updatedOptions)
                  {| heap := h2; trace := trace s |})
      | None => None
      end
  | None => None
  end.

Definition onAddOption (P : Props) (addedOption : loc) (s : state)
    : option state :=
  mapAndNotify (addUpdated (singleSelection P) addedOption) P
    (emit (Toggle Add addedOption) s).

Definition onRemoveOption (P : Props) (removedOption : loc) (s : state)
    : option state :=
  mapAndNotify (removeUpdated (singleSelection P) removedOption) P
    (emit (Toggle Remove removedOption) s).

(** [excludedOption.checked = 'off'] is a write to the caller's object. *)
Definition onExcludeOption (P : Props) (excludedOption : loc) (s : state)
    : option state :=
  let s := emit (Toggle Exclude excludedOption) s in
  match getObj (heap s) excludedOption with
  | Some o =>
      let h1 :=
        <[excludedOption := CObj (<["checked" := VStr "off"]> o)]> (heap s) in
      mapAndNotify (excludeUpdated excludedOption) P
        {| heap := h1; trace := trace s |}
  | None => None
  end.

(** The parameter is the source's [option]. *)
Definition onAddOrRemoveOption (P : Props) (opt : loc) (s : state)
    : option state :=
  match getObj (heap s) opt with
  | Some o =>
      if truthy (get o "disabled") then Some s
      else if strictEq (get o "checked") (VStr "on")
              && exclusionsOn (allowExclusions P)
      then onExcludeOption P opt s
      else if strictEq (get o "checked") (VStr "on")
              || strictEq (get o "checked") (VStr "off")
      then onRemoveOption P opt s
      else onAddOption P opt s
  | None => None
  end.

(** The objects an options array holds, in order. *)
Definition readOptions (h : list cell) (a : loc)
    : option (list (gmap string val)) :=
  match getArr h a with
  | Some arr => mapM (getObj h) arr
  | None => None
  end.

(** [o'] is [o] but for its [checked] key. *)
Definition sameButChecked (o o' : gmap string val) : Prop :=
  ∀ k : string, k ≠ "checked" → o' !! k = o !! k.

(** The array at [a'] in [h'] was built after [h]: it and its elements are
    references [h] does not have, the elements are pairwise distinct, and
    element by element they are copies of [os] but for [checked]. *)
Definition freshCopies (h h' : list cell) (os : list (gmap string val))
    (a' : loc) : Prop :=
  ∃ arr' os',
    getArr h' a' = Some arr' ∧ mapM (getObj h') arr' = Some os'
    ∧ h !! a' = None ∧ Forall (λ l', h !! l' = None) arr' ∧ NoDup arr'
    ∧ Forall2 sameButChecked os os'.

(** A store extended by a block of copies and the array that lists them. *)
Definition built (h1 : list cell) (cs : list (gmap string val))
    : list cell :=
  h1 ++ (CObj <$> cs) ++ [CArr (seq (length h1) (length cs))].

(** The events of [s'] that [s] does not have yet. *)
Definition newEvents (s s' : state) : list event :=
  drop (length (trace s)) (trace s').

(** The array handed to [onOptionClick] between [s] and [s'], if the last
    thing that happened was such a call. *)
Definition handed (s s' : state) : option loc :=
  match last (newEvents s s') with
  | Some (OptionClick a) => Some a
  | _ => None
  end.

(** A click on the row of [options[i]].  [ListRow] renders a group label
    as a bare [li] with no handler, so a click there does nothing; every
    other row has the handler [() => this.onAddOrRemoveOption(option)]. *)
Definition clickOption (P : Props) (i : nat) (s : state) : option state :=
  match getArr (heap s) (options P) with
  | Some arr =>
      match arr !! i with
      | Some l =>
          match getObj (heap s) l with
          | Some o =>
              if truthy (get o "isGroupLabel") then Some s
              else onAddOrRemoveOption P l s
          | None => None
          end
      | None => None
      end
  | None => None
  end.

(** The owner re-renders the list with the array it was handed. *)
Definition withOptions (a : loc) (P : Props) : Props :=
  {| options := a; singleSelection := singleSelection P;
     allowExclusions := allowExclusions P |}.

(** Index [i], and no other, has checked "on". *)
Definition onlyOn (i : nat) (os : list (gmap string val)) : Prop :=
  ∀ j o, os !! j = Some o → get o "checked" = VStr "on" ↔ j = i.

Definition noCheckedKey (os : list (gmap string val)) : Prop :=
  Forall (λ o : gmap string val, o !! "checked" = None) os.

(** Two clicks on option [i], the owner re-rendering in between with the
    array it was handed: the first click hands over a new array in which
    only index [i] is "on"; the second hands over an array with no
    [checked] key at all or, in 'always' mode, with the same contents as
    the first. *)
Definition selectThenDeselect (P : Props) (s : state) (i : nat) : Prop :=
  ∃ s1 a1 os1,
    clickOption P i s = Some s1
    ∧ handed s s1 = Some a1
    ∧ heap s !! a1 = None
    ∧ readOptions (heap s1) a1 = Some os1
    ∧ onlyOn i os1
    ∧ ∃ s2 a2 os2,
        clickOption (withOptions a1 P) i s1 = Some s2
        ∧ handed s1 s2 = Some a2
        ∧ readOptions (heap s2) a2 = Some os2
        ∧ if bool_decide (singleSelection P = SingleAlways)
          then os2 = os1
          else noCheckedKey os2.

(** Two clicks on option [i], the owner re-rendering in between: the first
    enters the exclude handler and hands over an array in which index [i]
    has checked "off"; the second enters the remove handler and hands over
    an array in which the [checked] key of index [i] is [final] ([None]
    for "cleared"). *)
Definition excludeThenRemove (final : option val) (P : Props) (s : state)
    (i : nat) : Prop :=
  ∃ l s1 a1 os1 o1,
    clickOption P i s = Some s1
    ∧ newEvents s s1 = [Toggle Exclude l; OptionClick a1]
    ∧ readOptions (heap s1) a1 = Some os1
    ∧ os1 !! i = Some o1
    ∧ o1 !! "checked" = Some (VStr "off")
    ∧ ∃ l1 s2 a2 os2 o2,
        clickOption (withOptions a1 P) i s1 = Some s2
        ∧ newEvents s1 s2 = [Toggle Remove l1; OptionClick a2]
        ∧ readOptions (heap s2) a2 = Some os2
        ∧ os2 !! i = Some o2
        ∧ o2 !! "checked" = final.

(** A small list used in the examples: a plain option, a selected one
    and a disabled one, and the array that holds them. *)
Definition fruit : list cell :=
  [ CObj {[ "label" := VStr "apple" ]};
    CObj (<["checked" := VStr "on"]> {[ "label" := VStr "pear" ]});
    CObj (<["disabled" := VBool true]> {[ "label" := VStr "fig" ]});
    CArr [0; 1; 2] ].

Definition fruitObjects : list (gmap string val) :=
  [ {[ "label" := VStr "apple" ]};
    <["checked" := VStr "on"]> {[ "label" := VStr "pear" ]};
    <["disabled" := VBool true]> {[ "label" := VStr "fig" ]} ].

(** The same list with nothing selected, and a list that holds one object
    twice. *)
Definition unselected : list cell :=
  [ CObj {[ "label" := VStr "apple" ]};
    CObj {[ "label" := VStr "pear" ]};
    CObj (<["disabled" := VBool true]> {[ "label" := VStr "fig" ]});
    CArr [0; 1; 2] ].

Definition unselectedObjects : list (gmap string val) :=
  [ {[ "label" := VStr "apple" ]};
    {[ "label" := VStr "pear" ]};
    <["disabled" := VBool true]> {[ "label" := VStr "fig" ]} ].

Definition twice : list cell :=
  [ CObj {[ "label" := VStr "apple" ]}; CArr [0; 0] ].

(** A list that starts with a group label, and the same list with the label
    carrying a checked value. *)
Definition grouped : list cell :=
  [ CObj (<["isGroupLabel" := VBool true]> {[ "label" := VStr "Fruit" ]});
    CObj {[ "label" := VStr "apple" ]};
    CArr [0; 1] ].

Definition groupedOn : list cell :=
  [ CObj (<["checked" := VStr "on"]>
            (<["isGroupLabel" := VBool true]> {[ "label" := VStr "Fruit" ]}));
    CObj {[ "label" := VStr "apple" ]};
    CArr [0; 1] ].

Definition groupedProps (ss : SingleSelection) (excl : option bool) : Props :=
  {| options := 2; singleSelection := ss; allowExclusions := excl |}.

Definition groupedState : state := {| heap := grouped; trace := [] |}.

Definition groupedOnState : state := {| heap := groupedOn; trace := [] |}.

Definition unselectedState : state := {| heap := unselected; trace := [] |}.

Definition twiceState : state := {| heap := twice; trace := [] |}.

Definition twiceProps (ss : SingleSelection) (excl : option bool) : Props :=
  {| options := 1; singleSelection := ss; allowExclusions := excl |}.

Definition fruitState : state := {| heap := fruit; trace := [] |}.

Definition fruitProps (ss : SingleSelection) (excl : option bool) : Props :=
  {| options := 3; singleSelection := ss; allowExclusions := excl |}.

End SelectableList.

(** The dispatch rule in the specification's words: "if option already on
    and exclusions allowed, exclude; else if already on or off, remove; else
    add".  Compared with [onAddOrRemoveOption] below. *)
Module DispatchRule.
Import Js SelectableList.

Definition rule (checked : val) (exclusionsAllowed : bool) : toggle :=
  if bool_decide (checked = VStr "on") && exclusionsAllowed then Exclude
  else if bool_decide (checked = VStr "on" ∨ checked = VStr "off")
  then Remove
  else Add.

Definition run (t : toggle) : Props → loc → state → option state :=
  match t with
  | Exclude => onExcludeOption
  | Remove => onRemoveOption
  | Add => onAddOption
  end.

End DispatchRule.

(** ** EuiSuperUpdateButton *)

Module SuperUpdateButton.

Record EuiSuperUpdateButtonProps := {
  isDisabled : bool;
  isLoading : bool;
  needsUpdate : bool;
  showTooltip : bool;
}.

(** [static defaultProps] *)
Definition defaultProps : EuiSuperUpdateButtonProps :=
  {| isDisabled := false; isLoading := false; needsUpdate := false;
     showTooltip := false |}.

(** [<EuiI18n token=... default=... />] *)
Record EuiI18n := {
  token : string;
  defaultText : string;
}.

(** What [render] derives from the flags: the [content] handed to
    [EuiToolTip] ([None] for [undefined]) and the [EuiButton] props and
    child.  [className], [onClick], [toolTipProps] and [...rest] are passed
    through as given and are left out. *)
Record Rendered := {
  content : option EuiI18n;
  position : string;
  color : string;
  iconType : string;
  buttonIsDisabled : bool;
  buttonIsLoading : bool;
  buttonText : EuiI18n;
}.

Definition render (p : EuiSuperUpdateButtonProps) : Rendered :=
  let buttonText :=
    {| token := "euiSuperUpdateButton.refreshButtonLabel";
       defaultText := "Refresh" |} in
  let buttonText :=
    if needsUpdate p || isLoading p then
      if isLoading p then
        {| token := "euiSuperUpdateButton.updatingButtonLabel";
           defaultText := "Updating" |}
      else
        {| token := "euiSuperUpdateButton.updateButtonLabel";
           defaultText := "Update" |}
    else buttonText in
  let tooltipContent :=
    if isDisabled p then
      Some {| token := "euiSuperUpdateButton.cannotUpdateTooltip";
              defaultText := "Cannot update" |}
    else if needsUpdate p && negb (isLoading p) then
      Some {| token := "euiSuperUpdateButton.clickToApplyTooltip";
              defaultText := "Click to apply" |}
    else None in
  {| content := tooltipContent;
     position := "bottom";
     color := if needsUpdate p || isLoading p then "secondary" else "primary";
     iconType :=
       if needsUpdate p || isLoading p then "kqlFunction" else "refresh";
     buttonIsDisabled := isDisabled p;
     buttonIsLoading := isLoading p;
     buttonText := buttonText |}.

(** The rendered label and tooltip text, with no translation installed. *)
Definition label (p : EuiSuperUpdateButtonProps) : string :=
  defaultText (buttonText (render p)).

Definition tooltipText (p : EuiSuperUpdateButtonProps) : option string :=
  defaultText <$> content (render p).

(** *** Instance fields, timers and the tooltip node

    [EuiToolTip] nodes are named by a number; the calls made on them are
    logged with the time of the call.  Time is a logical clock in
    milliseconds.  Every timer this component creates has the same callback,
    [() => this.hideTooltip()], so a pending timer is its id and the time it
    becomes due. *)

Inductive toolTipCall :=
| ShowToolTip (node : nat)
| HideToolTip (node : nat).

#[global] Instance toolTipCall_eq_dec : EqDecision toolTipCall.
Proof. solve_decision. Defined.

Record world := {
  props : EuiSuperUpdateButtonProps;
  _isMounted : bool;
  tooltipTimeout : option nat;
  tooltip : option nat;
  clock : N;
  nextTimerId : nat;
  timers : list (nat * N);
  calls : list (N * toolTipCall);
}.

Definition initial (p : EuiSuperUpdateButtonProps) : world :=
  {| props := p; _isMounted := false; tooltipTimeout := None;
     tooltip := None; clock := 0; nextTimerId := 1; timers := [];
     calls := [] |}.

Definition set_isMounted (b : bool) (w : world) : world :=
  {| props := props w; _isMounted := b; tooltipTimeout := tooltipTimeout w;
     tooltip := tooltip w; clock := clock w; nextTimerId := nextTimerId w;
     timers := timers w; calls := calls w |}.

Definition log (c : toolTipCall) (w : world) : world :=
  {| props := props w; _isMounted := _isMounted w;
     tooltipTimeout := tooltipTimeout w; tooltip := tooltip w;
     clock := clock w; nextTimerId := nextTimerId w; timers := timers w;
     calls := calls w ++ [(clock w, c)] |}.

Definition componentWillUnmount (w : world) : world := set_isMounted false w.

Definition componentDidMount (w : world) : world := set_isMounted true w.

Definition setTootipRef (node : option nat) (w : world) : world :=
  {| props := props w; _isMounted := _isMounted w;
     tooltipTimeout := tooltipTimeout w; tooltip := node; clock := clock w;
     nextTimerId := nextTimerId w; timers := timers w; calls := calls w |}.

(** The methods [showTooltip] and [hideTooltip] ([this_] tells them from the
    prop of the same name). *)
Definition this_showTooltip (w : world) : world :=
  match _isMounted w, tooltip w with
  | true, Some node => log (ShowToolTip node) w
  | _, _ => w
  end.

Definition this_hideTooltip (w : world) : world :=
  match _isMounted w, tooltip w with
  | true, Some node => log (HideToolTip node) w
  | _, _ => w
  end.

(** [this.tooltipTimeout = setTimeout(() => { this.hideTooltip(); }, delay)] *)
Definition setTimeout_hideTooltip (delay : N) (w : world) : world :=
  {| props := props w; _isMounted := _isMounted w;
     tooltipTimeout := Some (nextTimerId w); tooltip := tooltip w;
     clock := clock w; nextTimerId := S (nextTimerId w);
     timers := timers w ++ [(nextTimerId w, (clock w + delay)%N)];
     calls := calls w |}.

Definition componentDidUpdate (w : world) : world :=
  if showTooltip (props w) && needsUpdate (props w)
     && negb (isDisabled (props w)) && negb (isLoading (props w))
  then setTimeout_hideTooltip 2000 (this_showTooltip w)
  else w.

(** *** What the framework and the host do to the component *)

Inductive action :=
| DidMount
| WillUnmount
| DidUpdate (p : EuiSuperUpdateButtonProps)
| SetRef (node : option nat)
| Elapse (dt : N)
| TimerFires (id : nat).

Definition setProps (p : EuiSuperUpdateButtonProps) (w : world) : world :=
  {| props := p; _isMounted := _isMounted w;
     tooltipTimeout := tooltipTimeout w; tooltip := tooltip w;
     clock := clock w; nextTimerId := nextTimerId w; timers := timers w;
     calls := calls w |}.

Definition elapse (dt : N) (w : world) : world :=
  {| props := props w; _isMounted := _isMounted w;
     tooltipTimeout := tooltipTimeout w; tooltip := tooltip w;
     clock := (clock w + dt)%N; nextTimerId := nextTimerId w;
     timers := timers w; calls := calls w |}.

Definition dropTimer (id : nat) (w : world) : world :=
  {| props := props w; _isMounted := _isMounted w;
     tooltipTimeout := tooltipTimeout w; tooltip := tooltip w;
     clock := clock w; nextTimerId := nextTimerId w;
     timers := filter (λ t, t.1 ≠ id) (timers w); calls := calls w |}.

(** A pending timer runs its callback once, and not before it is due. *)
Definition fire (id : nat) (w : world) : world :=
  match list_find (λ t, t.1 = id) (timers w) with
  | Some (_, (_, due)) =>
      if (due <=? clock w)%N then this_hideTooltip (dropTimer id w) else w
  | None => w
  end.

Definition step (a : action) (w : world) : world :=
  match a with
  | DidMount => componentDidMount w
  | WillUnmount => componentWillUnmount w
  | DidUpdate p => componentDidUpdate (setProps p w)
  | SetRef node => setTootipRef node w
  | Elapse dt => elapse dt w
  | TimerFires id => fire id w
  end.

Definition run (acts : list action) (w : world) : world :=
  foldl (λ w a, step a w) w acts.

(** What can happen between mount and unmount. *)
Definition whileMounted (a : action) : bool :=
  match a with
  | DidUpdate _ | Elapse _ | TimerFires _ => true
  | DidMount | WillUnmount | SetRef _ => false
  end.

(** The condition of [componentDidUpdate]. *)
Definition shouldShow (p : EuiSuperUpdateButtonProps) : bool :=
  showTooltip p && needsUpdate p && negb (isDisabled p)
  && negb (isLoading p).

(** Timer ids already handed out are below the next one. *)
Definition freshTimerIds (w : world) : Prop :=
  Forall (λ t : nat * N, t.1 < nextTimerId w) (timers w).

(** An actionable button right after it was mounted with tooltip node 7. *)
Definition actionable : EuiSuperUpdateButtonProps :=
  {| isDisabled := false; isLoading := false; needsUpdate := true;
     showTooltip := true |}.

Definition justMounted : world :=
  run [SetRef (Some 7); DidMount] (initial actionable).

End SuperUpdateButton.

(** ** parseTimeParts (quick_select_utils) *)

Module QuickSelect.

Inductive TimeTense := last | next.

#[global] Instance TimeTense_eq_dec : EqDecision TimeTense.
Proof. solve_decision. Defined.

Record TimeParts := {
  timeTense : TimeTense;
  timeUnits : string;
  timeValue : nat;
}.

Definition isDigit (c : ascii) : bool :=
  (48 <=? nat_of_ascii c) && (nat_of_ascii c <=? 57).

Definition digitValue (c : ascii) : nat := nat_of_ascii c - 48.

(** The longest run of digits at the head of a string, and what follows. *)
Fixpoint spanDigits (s : string) : list ascii * string :=
  match s with
  | String c rest =>
      if isDigit c
      then let '(ds, tl) := spanDigits rest in (c :: ds, tl)
      else ([], s)
  | EmptyString => ([], s)
  end.

(** [parseInt(digits, 10)] *)
Definition parseInt10 (ds : list ascii) : nat :=
  foldl (λ acc c, 10 * acc + digitValue c) 0 ds.

Fixpoint stripPrefix (p s : string) : option string :=
  match p, s with
  | EmptyString, _ => Some s
  | String a p', String b s' =>
      if bool_decide (a = b) then stripPrefix p' s' else None
  | String _ _, EmptyString => None
  end.

(** [N] written in decimal, as it appears in an expression. *)
Definition decimal (n : nat) : string :=
  DecimalString.NilEmpty.string_of_uint (Nat.to_uint n).

Section Parser.

(** The calendar-unit alphabet, of which the specification names minute,
    hour and day, and the calendar library's answer to "how many whole
    hours since the start of the current [u]". *)
Variable units : list ascii.
Variable hoursSinceStartOf : ascii → nat.

Definition isUnit (u : ascii) : bool := bool_decide (u ∈ units).

(** Modelled from the spec: the body of [parseTimeParts] is missing from
    the sources.  This is the part of its grammar after the leading
    [now]: a sign, a positive integer and a unit give the tense of the
    sign, that value and that unit; a slash and a unit give tense last,
    unit hour and the hours computed by the calendar library.  Anything
    else is left unspecified, which is [None] here. *)
Definition parseOffset (rest : string) : option TimeParts :=
  match rest with
  | String op body =>
      if bool_decide (op = "+"%char) || bool_decide (op = "-"%char) then
        match spanDigits body with
        | (d :: ds, String u EmptyString) =>
            if isUnit u && negb (parseInt10 (d :: ds) =? 0)
            then Some {| timeTense :=
                           if bool_decide (op = "+"%char) then next
                           else last;
                         timeUnits := String u EmptyString;
                         timeValue := parseInt10 (d :: ds) |}
            else None
        | _ => None
        end
      else if bool_decide (op = "/"%char) then
        match body with
        | String u EmptyString =>
            if isUnit u
            then Some {| timeTense := last; timeUnits := "h";
                         timeValue := hoursSinceStartOf u |}
            else None
        | _ => None
        end
      else None
  | EmptyString => None
  end.

(** Modelled from the spec: the body of [parseTimeParts] is missing from
    the sources.  The bare expression [now] yields tense next with the
    unit and value of the fallback expression; every other expression is
    parsed by the grammar above, whatever the fallback. *)
Definition parseTimeParts (value fallback : string) : option TimeParts :=
  match stripPrefix "now" value with
  | Some EmptyString =>
      match stripPrefix "now" fallback with
      | Some rest =>
          match parseOffset rest with
          | Some parts =>
              Some {| timeTense := next; timeUnits := timeUnits parts;
                      timeValue := timeValue parts |}
          | None => None
          end
      | None => None
      end
  | Some rest => parseOffset rest
  | None => None
  end.

End Parser.

(** The unit letters of the date-math syntax: second, minute, hour, day,
    week, month, year. *)
Definition dateMathUnits : list ascii :=
  ["s"; "m"; "h"; "d"; "w"; "M"; "y"]%char.

End QuickSelect.

(** ** The list as its owner sees it

    The component keeps no selection state: the owner passes [options], is
    handed a new array on every toggle and passes that array back.  A run of
    clicks is then a run of [onAddOrRemoveOption] calls with a re-render in
    between. *)

Module ControlledList.
Import Js SelectableList.

(** The props after the owner has seen what the click from [s] to [s']
    handed over, if anything. *)
Definition rerender (P : Props) (s s' : state) : Props :=
  match handed s s' with
  | Some a => withOptions a P
  | None => P
  end.

(** Clicks on the rows [rows], in that order. *)
Fixpoint clicks (P : Props) (s : state) (rows : list nat)
    : option (Props * state) :=
  match rows with
  | [] => Some (P, s)
  | i :: rest =>
      match clickOption P i s with
      | Some s' => clicks (rerender P s s') s' rest
      | None => None
      end
  end.

(** The options [P] shows in [s] are the objects [os], held by pairwise
    distinct references. *)
Definition shown (P : Props) (s : state) (os : list (gmap string val))
    : Prop :=
  ∃ arr,
    getArr (heap s) (options P) = Some arr
    ∧ mapM (getObj (heap s)) arr = Some os
    ∧ NoDup arr.

(** What one click does to the list of option objects, written without the
    store: the function the handlers are compared with.  A group label and a
    disabled option are left alone. *)
Definition reduce (ss : SingleSelection) (excl : option bool) (i : nat)
    (os : list (gmap string val)) : list (gmap string val) :=
  match os !! i with
  | None => os
  | Some o =>
      if truthy (get o "isGroupLabel") then os
      else if truthy (get o "disabled") then os
      else if strictEq (get o "checked") (VStr "on") && exclusionsOn excl
      then <[i := <["checked" := VStr "off"]> o]> os
      else if strictEq (get o "checked") (VStr "on")
              || strictEq (get o "checked") (VStr "off")
      then if bool_decide (ss = SingleAlways) then os
           else <[i := delete "checked" o]> os
      else if singleSelectionOn ss
      then <[i := <["checked" := VStr "on"]> (delete "checked" o)]>
             (delete "checked" <$> os)
      else <[i := <["checked" := VStr "on"]> o]> os
  end.

Definition isOn (o : gmap string val) : Prop := get o "checked" = VStr "on".

Definition isOff (o : gmap string val) : Prop := get o "checked" = VStr "off".

#[global] Instance isOn_dec o : Decision (isOn o).
Proof. unfold isOn. apply _. Defined.

#[global] Instance isOff_dec o : Decision (isOff o).
Proof. unfold isOff. apply _. Defined.

(** How many options are selected. *)
Definition countOn (os : list (gmap string val)) : nat :=
  length (filter isOn os).

End ControlledList.

(** ** EuiSelectableList: refs, ids, rows and height

    The parts of the component around the click handlers.  The [ul] element
    behind [listBoxRef] is given by its attributes; calls of
    [scrollToItem(index, 'auto')] on the [FixedSizeList] behind [listRef] are
    logged.  Pixel sizes are integers (on which the source's arithmetic in
    doubles is exact up to 2^53), so that the half row of [render] is a
    rational. *)

Module SelectableListView.
Import Js SelectableList.

(** [height?: number | 'full'] *)
Inductive Height :=
| HeightUnset
| HeightPx (px : Z)
| HeightFull.

Record ListProps := {
  selection : Props;
  visibleOptions : option loc;
  activeOptionIndex : option nat;
  searchable : option bool;
  rowHeight : Z;
  height : Height;
}.

Record view := {
  listRef : option nat;
  listBoxRef : option (gmap string string);
  scrolls : list (nat * nat);
}.

(** [n] as the template literal prints it. *)
Definition numberToString (n : nat) : string :=
  DecimalString.NilEmpty.string_of_uint (Nat.to_uint n).

(** [ref.scrollToItem(index, 'auto')] *)
Definition scrollToItem (ref index : nat) (v : view) : view :=
  {| listRef := listRef v; listBoxRef := listBoxRef v;
     scrolls := scrolls v ++ [(ref, index)] |}.

(** [this.listBoxRef.setAttribute(name, value)] *)
Definition setAttribute (name value : string) (v : view) : view :=
  {| listRef := listRef v;
     listBoxRef := insert name value <$> listBoxRef v;
     scrolls := scrolls v |}.

Section Ids.

(** [rootId = this.props.rootId || htmlIdGenerator()]: a function from an
    optional appendix to an id; the generator is not part of the sources. *)
Variable rootId : option string → string.

Definition makeOptionId (index : option nat) : string :=
  match index with
  | None => ""
  | Some index => rootId (Some ("_option-" +:+ numberToString index))
  end.

Definition setListRef (P : ListProps) (ref : option nat) (v : view) : view :=
  let v := {| listRef := ref; listBoxRef := listBoxRef v;
              scrolls := scrolls v |} in
  match ref, activeOptionIndex P with
  | Some r, Some (S n) => scrollToItem r (S n) v
  | _, _ => v
  end.

Definition setListBoxRef (P : ListProps) (ref : option (gmap string string))
    (v : view) : view :=
  let v := {| listRef := listRef v; listBoxRef := ref;
              scrolls := scrolls v |} in
  match ref with
  | Some _ =>
      let v := setAttribute "id" (rootId (Some "listbox")) v in
      let v := setAttribute "role" "listBox" v in
      let v :=
        if negb (bool_decide (searchable P = Some true))
        then setAttribute "tabindex" "0" v else v in
      if negb (bool_decide (singleSelection (selection P) = SingleAlways))
         && negb (bool_decide (singleSelection (selection P)
                               = SingleBool true))
      then setAttribute "aria-multiselectable" "true" v
      else v
  | None => v
  end.

Definition componentDidUpdate (P : ListProps) (v : view) : view :=
  let v :=
    match listBoxRef v with
    | Some _ =>
        setAttribute "aria-activedescendant"
          (makeOptionId (activeOptionIndex P)) v
    | None => v
    end in
  match listRef v, activeOptionIndex P with
  | Some r, Some index => scrollToItem r index v
  | _, _ => v
  end.

End Ids.

(** [const optionArray = visibleOptions || options], the [itemData]. *)
Definition itemData (P : ListProps) : loc :=
  default (options (selection P)) (visibleOptions P).

(** [ListRow], what a click on the row does: a group label is rendered as
    a bare [li] with no handler, any other row calls
    [this.onAddOrRemoveOption(option)] with [option = data[index]]. *)
Definition rowClick (P : ListProps) (index : nat) (s : state)
    : option state :=
  match getArr (heap s) (itemData P) with
  | Some data =>
      match data !! index with
      | Some l =>
          match getObj (heap s) l with
          | Some o =>
              if truthy (get o "isGroupLabel") then Some s
              else onAddOrRemoveOption (selection P) l s
          | None => None
          end
      | None => None
      end
  | None => None
  end.

(** [render]: the height worked out for [numVisibleOptions] rows; [None] is
    the [false] of a 'full' height. *)
Definition calculatedHeight (P : ListProps) (numVisibleOptions : nat)
    : option QArith_base.Q :=
  match height P with
  | HeightFull => None
  | HeightPx px => Some (QArith_base.inject_Z px)
  | HeightUnset =>
      let maxVisibleOptions := 7 in
      if maxVisibleOptions <? numVisibleOptions
      then Some (QArith_base.Qmult
                   (QArith_base.Qminus
                      (QArith_base.inject_Z (Z.of_nat maxVisibleOptions))
                      (QArith_base.Qmake 1 2))
                   (QArith_base.inject_Z (rowHeight P)))
      else Some (QArith_base.Qmult
                   (QArith_base.inject_Z (Z.of_nat numVisibleOptions))
                   (QArith_base.inject_Z (rowHeight P)))
  end.

(** [height={calculatedHeight || height}], with the height [AutoSizer]
    measured. *)
Definition listHeight (P : ListProps) (numVisibleOptions : nat)
    (autoHeight : QArith_base.Q) : QArith_base.Q :=
  match calculatedHeight P numVisibleOptions with
  | Some h =>
      if QArith_base.Qeq_bool h (QArith_base.inject_Z 0) then autoHeight
      else h
  | None => autoHeight
  end.

(** The example list filtered down to its last two options, under a group
    label: the store gains the label and the array of visible rows. *)
Definition filtered : list cell :=
  fruit ++ [ CObj (<["isGroupLabel" := VBool true]>
                     {[ "label" := VStr "Fruit" ]});
             CArr [4; 1; 2] ].

Definition filteredList : ListProps :=
  {| selection := fruitProps SingleUnset None; visibleOptions := Some 5;
     activeOptionIndex := None; searchable := Some true; rowHeight := 32;
     height := HeightUnset |}.

(** The example list, unfiltered, with an id generator that prefixes. *)
Definition fruitList (active : option nat) : ListProps :=
  {| selection := fruitProps SingleUnset None; visibleOptions := None;
     activeOptionIndex := active; searchable := None; rowHeight := 32;
     height := HeightUnset |}.

Definition prefixed (appendix : option string) : string :=
  "list" +:+ default "" appendix.

Definition noRefs : view :=
  {| listRef := None; listBoxRef := None; scrolls := [] |}.

End SelectableListView.

(** * Properties *)

(** ** The store *)

Module JsFacts.
Import Js.

Lemma getObj_app_l h h' l o :
  getObj h l = Some o → getObj (h ++ h') l = Some o.
Proof.
  unfold getObj. destruct (h !! l) as [c|] eqn:E; [|done].
  by rewrite (lookup_app_l_Some _ _ _ _ E).
Qed.

Lemma getObj_lt h l o : getObj h l = Some o → l < length h.
Proof.
  unfold getObj. destruct (h !! l) eqn:E; [|done].
  intros _. by eapply lookup_lt_Some.
Qed.

Lemma getObj_CObj h l o : getObj h l = Some o ↔ h !! l = Some (CObj o).
Proof.
  unfold getObj. destruct (h !! l) as [[]|]; naive_solver.
Qed.

Lemma getArr_CArr h l a : getArr h l = Some a ↔ h !! l = Some (CArr a).
Proof.
  unfold getArr. destruct (h !! l) as [[]|]; naive_solver.
Qed.

(** [map] over well-typed elements returns: the copies sit, in order, right
    after the old store. *)
Lemma mapSpread_spec f arr os : ∀ h,
  Forall2 (λ l o, getObj h l = Some o) arr os →
  mapSpread f arr h
  = Some (seq (length h) (length arr), h ++ (CObj <$> zip_with f arr os)).
Proof.
  revert os. induction arr as [|l arr IH]; intros os h HF.
  - apply Forall2_nil_inv_l in HF as ->. simpl. by rewrite app_nil_r.
  - apply Forall2_cons_inv_l in HF as (o & os' & Hl & HF & ->).
    simpl. rewrite Hl. unfold alloc.
    rewrite (IH os' (h ++ [CObj (f l o)])).
    + rewrite length_app. simpl. rewrite Nat.add_1_r.
      by rewrite <- app_assoc.
    + eapply Forall2_impl; [exact HF|]. intros. by apply getObj_app_l.
Qed.

(** Reading back a block of objects appended to a store. *)
Lemma read_block (cs : list (gmap string val)) : ∀ h tl,
  mapM (getObj (h ++ (CObj <$> cs) ++ tl)) (seq (length h) (length cs))
  = Some cs.
Proof.
  induction cs as [|c cs IH]; intros h tl; [done|].
  apply mapM_Some. simpl. constructor.
  - unfold getObj. by rewrite lookup_app_r, Nat.sub_diag by lia.
  - apply mapM_Some. specialize (IH (h ++ [CObj c]) tl).
    rewrite length_app in IH. simpl in IH.
    rewrite Nat.add_1_r, <- app_assoc in IH. exact IH.
Qed.

End JsFacts.

(** ** The selectable list *)

Module SelectableListFacts.
Import Js JsFacts SelectableList.

Lemma sameButChecked_refl o : sameButChecked o o.
Proof. by intros k _. Qed.

Lemma sameButChecked_insert o v :
  sameButChecked o (<["checked" := v]> o).
Proof. intros k Hk. by rewrite lookup_insert_ne. Qed.

Lemma sameButChecked_delete o : sameButChecked o (delete "checked" o).
Proof. intros k Hk. by rewrite lookup_delete_ne. Qed.

Lemma sameButChecked_trans o1 o2 o3 :
  sameButChecked o1 o2 → sameButChecked o2 o3 → sameButChecked o1 o3.
Proof. intros H1 H2 k Hk. by rewrite H2, H1. Qed.

Create HintDb copies.
#[local] Hint Resolve sameButChecked_refl sameButChecked_insert
  sameButChecked_delete : copies.

Lemma addUpdated_same ss a l o : sameButChecked o (addUpdated ss a l o).
Proof.
  unfold addUpdated. destruct (singleSelectionOn ss); case_bool_decide;
    eauto using sameButChecked_trans with copies.
Qed.

Lemma removeUpdated_same ss a l o :
  sameButChecked o (removeUpdated ss a l o).
Proof. unfold removeUpdated. destruct (_ && _); auto with copies. Qed.

Lemma excludeUpdated_same a l o : sameButChecked o (excludeUpdated a l o).
Proof. unfold excludeUpdated. case_bool_decide; auto with copies. Qed.

(** What [options.map(f)] followed by [onOptionClick] leaves behind. *)
Lemma mapAndNotify_spec f P s arr os :
  getArr (heap s) (options P) = Some arr →
  mapM (getObj (heap s)) arr = Some os →
  mapAndNotify f P s
  = Some {| heap := heap s ++ (CObj <$> zip_with f arr os)
                    ++ [CArr (seq (length (heap s)) (length arr))];
            trace := trace s
                     ++ [OptionClick (length (heap s) + length arr)] |}.
Proof.
  intros Ha Hos. apply mapM_Some in Hos.
  unfold mapAndNotify. rewrite Ha, (mapSpread_spec f arr os _ Hos).
  unfold alloc, emit. simpl. f_equal.
  rewrite length_app, length_fmap, length_zip_with.
  rewrite <- (Forall2_length _ _ _ Hos), Nat.min_id.
  by rewrite <- app_assoc.
Qed.

Lemma built_getArr h1 cs :
  getArr (built h1 cs) (length h1 + length cs)
  = Some (seq (length h1) (length cs)).
Proof.
  unfold built, getArr. rewrite lookup_app_r by lia.
  rewrite lookup_app_r by (rewrite length_fmap; lia).
  by replace (_ - _ - _) with 0 by (rewrite length_fmap; lia).
Qed.

Lemma built_read h1 cs :
  readOptions (built h1 cs) (length h1 + length cs) = Some cs.
Proof.
  unfold readOptions. rewrite built_getArr. apply read_block.
Qed.

Lemma built_old h1 cs l c :
  h1 !! l = Some c → built h1 cs !! l = Some c.
Proof. intros. by apply lookup_app_l_Some. Qed.

Lemma built_freshCopies h h1 os cs :
  length h1 = length h →
  Forall2 sameButChecked os cs →
  freshCopies h (built h1 cs) os (length h1 + length cs).
Proof.
  intros Hlen HF. exists (seq (length h1) (length cs)), cs.
  split_and!.
  - apply built_getArr.
  - apply read_block.
  - apply lookup_ge_None. lia.
  - apply Forall_forall. intros l' Hl'. apply elem_of_seq in Hl'.
    apply lookup_ge_None. lia.
  - apply NoDup_seq.
  - done.
Qed.

Lemma zip_with_sameButChecked f (arr : list loc) os :
  length arr = length os →
  (∀ l o, sameButChecked o (f l o)) →
  Forall2 sameButChecked os (zip_with f arr os).
Proof.
  intros Hlen Hf. revert os Hlen.
  induction arr as [|l arr IH]; intros [|o os] Hlen; simplify_eq/=;
    constructor; auto.
Qed.

Lemma mapAndNotify_built f P s arr os :
  getArr (heap s) (options P) = Some arr →
  mapM (getObj (heap s)) arr = Some os →
  mapAndNotify f P s
  = Some {| heap := built (heap s) (zip_with f arr os);
            trace := trace s
              ++ [OptionClick
                    (length (heap s) + length (zip_with f arr os))] |}.
Proof.
  intros Ha Hos. rewrite (mapAndNotify_spec f P s arr os Ha Hos).
  apply mapM_Some, Forall2_length in Hos.
  unfold built. rewrite length_zip_with, <- Hos, Nat.min_id. done.
Qed.

Lemma onAddOption_built P opt s arr os :
  getArr (heap s) (options P) = Some arr →
  mapM (getObj (heap s)) arr = Some os →
  onAddOption P opt s
  = Some {| heap := built (heap s)
                      (zip_with (addUpdated (singleSelection P) opt) arr os);
            trace := trace s
              ++ [Toggle Add opt; OptionClick (length (heap s) + length os)]
         |}.
Proof.
  intros Ha Hos. unfold onAddOption.
  rewrite (mapAndNotify_built _ P _ arr os) by done. simpl.
  apply mapM_Some, Forall2_length in Hos.
  rewrite length_zip_with, <- Hos, Nat.min_id, <- app_assoc. done.
Qed.

Lemma onRemoveOption_built P opt s arr os :
  getArr (heap s) (options P) = Some arr →
  mapM (getObj (heap s)) arr = Some os →
  onRemoveOption P opt s
  = Some {| heap := built (heap s)
                      (zip_with (removeUpdated (singleSelection P) opt)
                         arr os);
            trace := trace s
              ++ [Toggle Remove opt;
                  OptionClick (length (heap s) + length os)] |}.
Proof.
  intros Ha Hos. unfold onRemoveOption.
  rewrite (mapAndNotify_built _ P _ arr os) by done. simpl.
  apply mapM_Some, Forall2_length in Hos.
  rewrite length_zip_with, <- Hos, Nat.min_id, <- app_assoc. done.
Qed.

(** After the write to [opt], the array still lists objects: the one at
    [opt] now carries [checked: 'off']. *)
Lemma read_after_write h opt o (arr : list loc) os :
  getObj h opt = Some o →
  mapM (getObj h) arr = Some os →
  mapM (getObj (<[opt := CObj (<["checked" := VStr "off"]> o)]> h)) arr
  = Some (zip_with (excludeUpdated opt) arr os).
Proof.
  intros Ho Hos. apply mapM_Some in Hos. apply mapM_Some.
  induction Hos as [|l o' arr os Hl _ IH]; simpl; constructor; [|done].
  unfold excludeUpdated. apply getObj_CObj. case_bool_decide as E.
  - subst l. assert (o' = o) as -> by congruence.
    apply list_lookup_insert_eq. by eapply getObj_lt.
  - rewrite list_lookup_insert_ne by done. by apply getObj_CObj.
Qed.

Lemma excludeUpdated_twice opt (arr : list loc) os :
  zip_with (excludeUpdated opt) arr (zip_with (excludeUpdated opt) arr os)
  = zip_with (excludeUpdated opt) arr os.
Proof.
  revert os. induction arr as [|l arr IH]; intros [|o os]; simpl; [done..|].
  f_equal; [|apply IH].
  unfold excludeUpdated. case_bool_decide; [|done].
  apply insert_insert_eq.
Qed.

Lemma onExcludeOption_built P opt s arr os o :
  getArr (heap s) (options P) = Some arr →
  mapM (getObj (heap s)) arr = Some os →
  getObj (heap s) opt = Some o →
  onExcludeOption P opt s
  = Some {| heap :=
              built (<[opt := CObj (<["checked" := VStr "off"]> o)]> (heap s))
                (zip_with (excludeUpdated opt) arr os);
            trace := trace s
              ++ [Toggle Exclude opt;
                  OptionClick (length (heap s) + length os)] |}.
Proof.
  intros Ha Hos Ho. unfold onExcludeOption. simpl. rewrite Ho.
  assert (options P ≠ opt) as Hne.
  { intros E. rewrite E in Ha. apply getArr_CArr in Ha.
    apply getObj_CObj in Ho. congruence. }
  erewrite (mapAndNotify_built _ P _ arr); simpl.
  - rewrite excludeUpdated_twice, length_insert.
    rewrite length_zip_with.
    apply mapM_Some, Forall2_length in Hos.
    rewrite <- Hos, Nat.min_id, <- app_assoc. done.
  - apply getArr_CArr. rewrite list_lookup_insert_ne by done.
    by apply getArr_CArr.
  - by apply read_after_write.
Qed.

Lemma mapM_getObj_lookup h (arr : list loc) os i l :
  mapM (getObj h) arr = Some os → arr !! i = Some l →
  ∃ o, os !! i = Some o ∧ getObj h l = Some o.
Proof.
  intros Hos Hl. apply mapM_Some in Hos.
  destruct (Forall2_lookup_l _ _ _ _ _ Hos Hl) as (o & ? & ?). eauto.
Qed.

Lemma rule_exclude v b :
  strictEq v (VStr "on") && b = true → DispatchRule.rule v b = Exclude.
Proof. unfold DispatchRule.rule, strictEq. by intros ->. Qed.

Lemma rule_remove v b :
  strictEq v (VStr "on") && b = false →
  strictEq v (VStr "on") || strictEq v (VStr "off") = true →
  DispatchRule.rule v b = Remove.
Proof.
  unfold DispatchRule.rule, strictEq. intros -> H.
  rewrite bool_decide_true; [done|].
  apply orb_true_iff in H as [H|H]; apply bool_decide_eq_true in H; auto.
Qed.

Lemma rule_add v b :
  strictEq v (VStr "on") && b = false →
  strictEq v (VStr "on") || strictEq v (VStr "off") = false →
  DispatchRule.rule v b = Add.
Proof.
  unfold DispatchRule.rule, strictEq. intros -> H.
  rewrite bool_decide_false; [done|].
  apply orb_false_iff in H as [H1 H2].
  apply bool_decide_eq_false in H1, H2. tauto.
Qed.

(** The handler is the rule: past the [disabled] guard it is exactly the
    handler the rule names. *)
Lemma onAddOrRemoveOption_rule P opt s o :
  getObj (heap s) opt = Some o →
  truthy (get o "disabled") = false →
  onAddOrRemoveOption P opt s
  = DispatchRule.run
      (DispatchRule.rule (get o "checked") (exclusionsOn (allowExclusions P)))
      P opt s.
Proof.
  intros Ho Hd. unfold onAddOrRemoveOption. rewrite Ho, Hd.
  destruct (strictEq _ _ && _) eqn:E1.
  { by rewrite rule_exclude. }
  destruct (strictEq _ _ || _) eqn:E2.
  { by rewrite rule_remove. }
  by rewrite rule_add.
Qed.

(** A handler that returns has logged its own entry and one callback. *)
Lemma run_trace t P opt s s' :
  DispatchRule.run t P opt s = Some s' →
  ∃ a', newEvents s s' = [Toggle t opt; OptionClick a'].
Proof.
  assert (Hm : ∀ f s0 s1, mapAndNotify f P s0 = Some s1 →
               ∃ a', trace s1 = trace s0 ++ [OptionClick a']).
  { intros f s0 s1. unfold mapAndNotify.
    destruct (getArr _ _); [|done].
    destruct (mapSpread _ _ _) as [[ls h1]|]; [|done].
    simpl. intros [= <-]. simpl. eauto. }
  unfold newEvents.
  destruct t; simpl; unfold onExcludeOption, onRemoveOption, onAddOption;
    simpl; intros H.
  - destruct (getObj _ _); [|done].
    apply Hm in H as [a' ->]. simpl. exists a'.
    by rewrite <- app_assoc, drop_app_length.
  - apply Hm in H as [a' ->]. simpl. exists a'.
    by rewrite <- app_assoc, drop_app_length.
  - apply Hm in H as [a' ->]. simpl. exists a'.
    by rewrite <- app_assoc, drop_app_length.
Qed.

Lemma run_returns t P opt s arr os o :
  getArr (heap s) (options P) = Some arr →
  mapM (getObj (heap s)) arr = Some os →
  getObj (heap s) opt = Some o →
  is_Some (DispatchRule.run t P opt s).
Proof.
  intros Ha Hos Ho. destruct t; simpl.
  - by erewrite onExcludeOption_built.
  - by erewrite onRemoveOption_built.
  - by erewrite onAddOption_built.
Qed.



(** C10. A click on an option whose [disabled] flag is truthy does
    nothing: the handler returns the state it was given, so no toggle
    handler is entered, [onOptionClick] is not called and the store is
    untouched; this holds whatever the props are (the options array is not
    even looked at) and whatever the option's [checked] is. *)
Theorem click_on_disabled_is_noop P opt s o :
  getObj (heap s) opt = Some o →
  truthy (get o "disabled") = true →
  onAddOrRemoveOption P opt s = Some s
  ∧ newEvents s s = []
  ∧ ∀ v,
      let s2 := {| heap := <[opt := CObj (<["checked" := v]> o)]> (heap s);
                   trace := trace s |} in
      onAddOrRemoveOption P opt s2 = Some s2.
Proof.
  intros Ho Hd. split_and!.
  - unfold onAddOrRemoveOption. by rewrite Ho, Hd.
  - unfold newEvents. apply drop_all.
  - intros v s2. unfold onAddOrRemoveOption, s2. simpl.
    assert (getObj (<[opt := CObj (<["checked" := v]> o)]> (heap s)) opt
            = Some (<["checked" := v]> o)) as ->.
    { apply getObj_CObj, list_lookup_insert_eq. by eapply getObj_lt. }
    unfold get in *. rewrite lookup_insert_ne by done. by rewrite Hd.
Qed.

Lemma click_on_disabled_is_noop_witness :
  onAddOrRemoveOption (fruitProps SingleAlways (Some true)) 2 fruitState
  = Some fruitState
  ∧ newEvents fruitState fruitState = []
  ∧ ∀ v,
      let s2 :=
        {| heap :=
             <[2 := CObj (<["checked" := v]>
                            (<["disabled" := VBool true]>
                               {[ "label" := VStr "fig" ]}))]> fruit;
           trace := [] |} in
      onAddOrRemoveOption (fruitProps SingleAlways (Some true)) 2 s2
      = Some s2.
Proof.
  exact (click_on_disabled_is_noop (fruitProps SingleAlways (Some true)) 2
           fruitState
           (<["disabled" := VBool true]> {[ "label" := VStr "fig" ]})
           eq_refl eq_refl).
Defined.

Lemma zip_with_lookup_both {A B C} (f : A → B → C) (xs : list A)
    (ys : list B) i x y :
  xs !! i = Some x → ys !! i = Some y →
  zip_with f xs ys !! i = Some (f x y).
Proof. intros Hx Hy. rewrite lookup_zip_with, Hx. simpl. by rewrite Hy. Qed.

(** C3. [onAddOption] returns, handing the owner an array in which every
    position that held the clicked option has checked "on"; with single
    selection on, every other position has no [checked] key (all options
    were cleared first); with single selection off, every other position
    holds an object equal to the one it copies. *)
Theorem add_sets_on P opt s arr os :
  getArr (heap s) (options P) = Some arr →
  mapM (getObj (heap s)) arr = Some os →
  ∃ s' a' os',
    onAddOption P opt s = Some s'
    ∧ handed s s' = Some a'
    ∧ readOptions (heap s') a' = Some os'
    ∧ length os' = length os
    ∧ ∀ i l o, arr !! i = Some l → os !! i = Some o →
        ∃ o', os' !! i = Some o'
          ∧ (l = opt → o' !! "checked" = Some (VStr "on"))
          ∧ (l ≠ opt → singleSelectionOn (singleSelection P) = true →
             o' = delete "checked" o)
          ∧ (l ≠ opt → singleSelectionOn (singleSelection P) = false →
             o' = o).
Proof.
  intros Ha Hos.
  pose proof Hos as Hlen. apply mapM_Some, Forall2_length in Hlen.
  eexists _, _, _. split; [by apply onAddOption_built|].
  split_and!.
  - unfold handed, newEvents. simpl. rewrite drop_app_length. done.
  - simpl.
    replace (length os)
      with (length (zip_with (addUpdated (singleSelection P) opt) arr os))
      by (rewrite length_zip_with; lia).
    apply built_read.
  - rewrite length_zip_with. lia.
  - intros i l o Hl Ho. eexists. split; [by apply zip_with_lookup_both|].
    unfold addUpdated. split_and!.
    + intros ->. rewrite bool_decide_true by done.
      apply lookup_insert_eq.
    + intros Hne ->. by rewrite bool_decide_false.
    + intros Hne ->. by rewrite bool_decide_false.
Qed.

Lemma add_sets_on_witness :
  ∃ s' a' os',
    onAddOption (fruitProps (SingleBool true) None) 0 fruitState = Some s'
    ∧ handed fruitState s' = Some a'
    ∧ readOptions (heap s') a' = Some os'
    ∧ length os' = length fruitObjects
    ∧ ∀ i l o, [0; 1; 2] !! i = Some l → fruitObjects !! i = Some o →
        ∃ o', os' !! i = Some o'
          ∧ (l = 0 → o' !! "checked" = Some (VStr "on"))
          ∧ (l ≠ 0 →
             singleSelectionOn
               (singleSelection (fruitProps (SingleBool true) None)) = true →
             o' = delete "checked" o)
          ∧ (l ≠ 0 →
             singleSelectionOn
               (singleSelection (fruitProps (SingleBool true) None)) = false →
             o' = o).
Proof.
  exact (add_sets_on (fruitProps (SingleBool true) None) 0 fruitState
           [0; 1; 2] fruitObjects eq_refl eq_refl).
Defined.

Lemma newEvents_app s evs h :
  newEvents s {| heap := h; trace := trace s ++ evs |} = evs.
Proof. unfold newEvents. simpl. apply drop_app_length. Qed.

(** C5. Each of the three toggle handlers returns after calling
    [onOptionClick] once, with an array built during the call: the array
    and its elements are new references, pairwise distinct, as many as the
    options and in their order, each a copy of its option but for
    [checked].  Add and remove leave every cell of the store they were
    given as it was (the options array and the option objects included);
    exclude leaves every cell as it was except the clicked option, on which
    it has set checked to "off" in place. *)
Theorem toggles_hand_over_fresh_copies P opt s arr os :
  getArr (heap s) (options P) = Some arr →
  mapM (getObj (heap s)) arr = Some os →
  (∃ s' a',
     onAddOption P opt s = Some s'
     ∧ newEvents s s' = [Toggle Add opt; OptionClick a']
     ∧ freshCopies (heap s) (heap s') os a'
     ∧ ∀ l c, heap s !! l = Some c → heap s' !! l = Some c)
  ∧ (∃ s' a',
     onRemoveOption P opt s = Some s'
     ∧ newEvents s s' = [Toggle Remove opt; OptionClick a']
     ∧ freshCopies (heap s) (heap s') os a'
     ∧ ∀ l c, heap s !! l = Some c → heap s' !! l = Some c)
  ∧ (∀ o, getObj (heap s) opt = Some o →
     ∃ s' a',
       onExcludeOption P opt s = Some s'
       ∧ newEvents s s' = [Toggle Exclude opt; OptionClick a']
       ∧ freshCopies (heap s) (heap s') os a'
       ∧ heap s' !! opt = Some (CObj (<["checked" := VStr "off"]> o))
       ∧ ∀ l c, l ≠ opt → heap s !! l = Some c → heap s' !! l = Some c).
Proof.
  intros Ha Hos.
  pose proof Hos as Hlen. apply mapM_Some, Forall2_length in Hlen.
  assert (Hfresh : ∀ f h1,
    length h1 = length (heap s) →
    (∀ l o, sameButChecked o (f l o)) →
    freshCopies (heap s) (built h1 (zip_with f arr os)) os
      (length (heap s) + length os)).
  { intros f h1 Hh1 Hf.
    replace (length (heap s) + length os)
      with (length h1 + length (zip_with f arr os))
      by (rewrite length_zip_with; lia).
    apply built_freshCopies; [done|].
    by apply zip_with_sameButChecked. }
  split_and!.
  - eexists _, _. split; [by apply onAddOption_built|]. split_and!.
    + apply newEvents_app.
    + apply Hfresh; [done|]. apply addUpdated_same.
    + intros l c. apply built_old.
  - eexists _, _. split; [by apply onRemoveOption_built|]. split_and!.
    + apply newEvents_app.
    + apply Hfresh; [done|]. apply removeUpdated_same.
    + intros l c. apply built_old.
  - intros o Ho. eexists _, _.
    split; [by apply onExcludeOption_built|]. split_and!.
    + apply newEvents_app.
    + apply Hfresh; [apply length_insert|]. apply excludeUpdated_same.
    + simpl. apply built_old, list_lookup_insert_eq. by eapply getObj_lt.
    + intros l c Hne Hl. simpl. apply built_old.
      by rewrite list_lookup_insert_ne.
Qed.

Lemma toggles_hand_over_fresh_copies_witness :
  let P := fruitProps SingleUnset (Some true) in
  let s := fruitState in
  (∃ s' a',
     onAddOption P 1 s = Some s'
     ∧ newEvents s s' = [Toggle Add 1; OptionClick a']
     ∧ freshCopies (heap s) (heap s') fruitObjects a'
     ∧ ∀ l c, heap s !! l = Some c → heap s' !! l = Some c)
  ∧ (∃ s' a',
     onRemoveOption P 1 s = Some s'
     ∧ newEvents s s' = [Toggle Remove 1; OptionClick a']
     ∧ freshCopies (heap s) (heap s') fruitObjects a'
     ∧ ∀ l c, heap s !! l = Some c → heap s' !! l = Some c)
  ∧ (∀ o, getObj (heap s) 1 = Some o →
     ∃ s' a',
       onExcludeOption P 1 s = Some s'
       ∧ newEvents s s' = [Toggle Exclude 1; OptionClick a']
       ∧ freshCopies (heap s) (heap s') fruitObjects a'
       ∧ heap s' !! 1 = Some (CObj (<["checked" := VStr "off"]> o))
       ∧ ∀ l c, l ≠ 1 → heap s !! l = Some c → heap s' !! l = Some c).
Proof.
  exact (toggles_hand_over_fresh_copies (fruitProps SingleUnset (Some true))
           1 fruitState [0; 1; 2] fruitObjects eq_refl eq_refl).
Defined.

(** *** Clicks, branch by branch *)

Section Click.
Variables (P : Props) (s : state) (arr : list loc)
  (os : list (gmap string val)) (i : nat) (l : loc)
  (o : gmap string val).
Hypothesis Harr : getArr (heap s) (options P) = Some arr.
Hypothesis Hos : mapM (getObj (heap s)) arr = Some os.
Hypothesis Hl : arr !! i = Some l.
Hypothesis Ho : os !! i = Some o.
Hypothesis Henabled : truthy (get o "disabled") = false.
Hypothesis Hrow : truthy (get o "isGroupLabel") = false.

Lemma clicked_object : getObj (heap s) l = Some o.
Proof.
  destruct (mapM_getObj_lookup _ _ _ _ _ Hos Hl) as (o' & Ho' & ?).
  congruence.
Qed.

Lemma click_is_run :
  clickOption P i s
  = DispatchRule.run
      (DispatchRule.rule (get o "checked")
         (exclusionsOn (allowExclusions P))) P l s.
Proof.
  unfold clickOption. rewrite Harr, Hl, clicked_object, Hrow.
  apply onAddOrRemoveOption_rule; [apply clicked_object|done].
Qed.

Lemma click_add :
  get o "checked" ≠ VStr "on" → get o "checked" ≠ VStr "off" →
  clickOption P i s
  = Some {| heap := built (heap s)
              (zip_with (addUpdated (singleSelection P) l) arr os);
            trace := trace s
              ++ [Toggle Add l; OptionClick (length (heap s) + length os)]
         |}.
Proof.
  intros Hon Hoff. rewrite click_is_run, rule_add.
  - by apply onAddOption_built.
  - unfold strictEq. by rewrite bool_decide_false.
  - unfold strictEq. by rewrite !bool_decide_false.
Qed.

Lemma click_remove :
  (get o "checked" = VStr "on" ∧ exclusionsOn (allowExclusions P) = false)
  ∨ get o "checked" = VStr "off" →
  clickOption P i s
  = Some {| heap := built (heap s)
              (zip_with (removeUpdated (singleSelection P) l) arr os);
            trace := trace s
              ++ [Toggle Remove l;
                  OptionClick (length (heap s) + length os)] |}.
Proof.
  intros H. rewrite click_is_run, rule_remove.
  - by apply onRemoveOption_built.
  - unfold strictEq. destruct H as [[-> ->]| ->]; [|done].
    by rewrite andb_false_r.
  - unfold strictEq. by destruct H as [[-> _]| ->].
Qed.

Lemma click_exclude :
  get o "checked" = VStr "on" → exclusionsOn (allowExclusions P) = true →
  clickOption P i s
  = Some {| heap :=
              built (<[l := CObj (<["checked" := VStr "off"]> o)]> (heap s))
                (zip_with (excludeUpdated l) arr os);
            trace := trace s
              ++ [Toggle Exclude l;
                  OptionClick (length (heap s) + length os)] |}.
Proof.
  intros Hon Hex. rewrite click_is_run, rule_exclude.
  - apply onExcludeOption_built; [done..|apply clicked_object].
  - unfold strictEq. by rewrite Hon, Hex.
Qed.

End Click.

(** After a toggle the owner re-renders with the array it was handed: that
    array lists the copies, which sit right after the old store. *)
Lemma rerendered_getArr P h1 cs tr :
  getArr (heap {| heap := built h1 cs; trace := tr |})
    (options (withOptions (length h1 + length cs) P))
  = Some (seq (length h1) (length cs)).
Proof. apply built_getArr. Qed.

Lemma rerendered_read h1 cs tr :
  mapM (getObj (heap {| heap := built h1 cs; trace := tr |}))
    (seq (length h1) (length cs))
  = Some cs.
Proof. apply read_block. Qed.

Lemma handed_app s h evs a :
  handed s {| heap := h; trace := trace s ++ evs ++ [OptionClick a] |}
  = Some a.
Proof.
  unfold handed. rewrite newEvents_app. by rewrite last_snoc.
Qed.

(** Picking out one reference of a duplicate-free array. *)
Lemma zip_with_pick (g k : gmap string val → gmap string val)
    (arr : list loc) os i l o :
  NoDup arr → arr !! i = Some l → os !! i = Some o →
  length arr = length os →
  zip_with (λ l' x, if bool_decide (l' = l) then g x else k x) arr os
  = <[i := g o]> (k <$> os).
Proof.
  intros Hnd Hl Ho Hlen. apply list_eq. intros j.
  rewrite lookup_zip_with.
  destruct (decide (j = i)) as [->|Hne].
  - rewrite Hl. simpl. rewrite Ho. simpl.
    rewrite bool_decide_true by done.
    rewrite list_lookup_insert_eq; [done|].
    rewrite length_fmap. by eapply lookup_lt_Some.
  - rewrite list_lookup_insert_ne by done. rewrite list_lookup_fmap.
    destruct (arr !! j) as [l'|] eqn:Hj; simpl.
    + destruct (os !! j) as [o'|]; [|done]. simpl.
      rewrite bool_decide_false; [done|].
      intros ->. apply Hne. by eapply NoDup_lookup.
    + apply lookup_ge_None in Hj.
      assert (os !! j = None) as -> by (apply lookup_ge_None; lia). done.
Qed.

Lemma zip_with_keep (arr : list loc) (os : list (gmap string val)) :
  length arr = length os → zip_with (λ _ x, x) arr os = os.
Proof.
  revert os. induction arr as [|l arr IH]; intros [|o os] Hlen;
    simplify_eq/=; [done|]. f_equal. by apply IH.
Qed.

Lemma built_read_at h cs n :
  n = length cs → readOptions (built h cs) (length h + n) = Some cs.
Proof. intros ->. apply built_read. Qed.

Lemma addUpdated_single ss l (arr : list loc) os i o :
  singleSelectionOn ss = true →
  NoDup arr → arr !! i = Some l → os !! i = Some o →
  length arr = length os →
  zip_with (addUpdated ss l) arr os
  = <[i := <["checked" := VStr "on"]> (delete "checked" o)]>
      (delete "checked" <$> os).
Proof.
  intros Hss Hnd Hl Ho Hlen.
  rewrite <- (zip_with_pick (λ x, <["checked" := VStr "on"]>
                                   (delete "checked" x))
               (delete "checked") arr os i l o) by done.
  apply zip_with_ext; [|done..]. intros l' x.
  unfold addUpdated. by rewrite Hss.
Qed.

Lemma removeUpdated_always l (arr : list loc) os :
  length arr = length os →
  zip_with (removeUpdated SingleAlways l) arr os = os.
Proof.
  intros Hlen. rewrite <- (zip_with_keep arr os Hlen) at 2.
  apply zip_with_ext; [|done..]. intros l' x.
  unfold removeUpdated. by rewrite andb_false_r.
Qed.

Lemma removeUpdated_pick ss l (arr : list loc) os i o :
  ss ≠ SingleAlways →
  NoDup arr → arr !! i = Some l → os !! i = Some o →
  length arr = length os →
  zip_with (removeUpdated ss l) arr os = <[i := delete "checked" o]> os.
Proof.
  intros Hss Hnd Hl Ho Hlen.
  rewrite <- (list_fmap_id os) at 2.
  rewrite <- (zip_with_pick (delete "checked") id arr os i l o) by done.
  apply zip_with_ext; [|done..]. intros l' x.
  unfold removeUpdated. rewrite (bool_decide_false _ Hss), andb_true_r.
  done.
Qed.

(** C2 (amended). Start from an options array of pairwise distinct objects
    none of which has a checked value, with single selection on and
    exclusions not allowed, and let option [i] be neither disabled nor a
    group label.  A click on
    option [i] hands the owner a new array in which only index [i] has
    checked "on"; once the owner has re-rendered with it, a second click on
    option [i] hands over an array with no [checked] key on any option, or,
    when single selection is 'always', an array with the contents of the
    first one. *)
Theorem select_then_deselect P s arr os i o :
  getArr (heap s) (options P) = Some arr →
  mapM (getObj (heap s)) arr = Some os →
  NoDup arr →
  Forall (λ o, get o "checked" = VUndefined) os →
  singleSelectionOn (singleSelection P) = true →
  exclusionsOn (allowExclusions P) = false →
  os !! i = Some o →
  truthy (get o "disabled") = false →
  truthy (get o "isGroupLabel") = false →
  selectThenDeselect P s i.
Proof.
  intros Ha Hos Hnd Hun Hss Hex Ho Hd Hg.
  pose proof Hos as HF. apply mapM_Some in HF.
  pose proof (Forall2_length _ _ _ HF) as Hlen.
  destruct (Forall2_lookup_r _ _ _ _ _ HF Ho) as (l & Hl & Hlo).
  assert (Hi : i < length os) by (by eapply lookup_lt_Some).
  assert (Hck : get o "checked" = VUndefined).
  { by eapply (proj1 (Forall_lookup _ _) Hun). }
  set (o1 := <["checked" := VStr "on"]> (delete "checked" o)).
  set (cs1 := zip_with (addUpdated (singleSelection P) l) arr os).
  assert (Hcs1 : cs1 = <[i := o1]> (delete "checked" <$> os)).
  { by apply addUpdated_single. }
  assert (Hlen1 : length cs1 = length os).
  { rewrite Hcs1, length_insert, length_fmap. done. }
  assert (Ho1 : cs1 !! i = Some o1).
  { rewrite Hcs1. apply list_lookup_insert_eq. by rewrite length_fmap. }
  set (a1 := length (heap s) + length os).
  set (s1 := {| heap := built (heap s) cs1;
                trace := trace s ++ [Toggle Add l; OptionClick a1] |}).
  set (l1 := length (heap s) + i).
  set (cs2 := zip_with (removeUpdated (singleSelection P) l1)
                (seq (length (heap s)) (length cs1)) cs1).
  exists s1, a1, cs1. split_and!.
  - apply (click_add P s arr os i l o Ha Hos Hl Ho Hd Hg);
      rewrite Hck; discriminate.
  - apply (handed_app s _ [Toggle Add l]).
  - apply lookup_ge_None. unfold a1. lia.
  - by apply built_read_at.
  - intros j oj. rewrite Hcs1.
    destruct (decide (j = i)) as [->|Hne].
    + rewrite list_lookup_insert_eq by (by rewrite length_fmap).
      intros [= <-]. split; [done|]. intros _.
      unfold get, o1. by rewrite lookup_insert_eq.
    + rewrite list_lookup_insert_ne, list_lookup_fmap by done.
      destruct (os !! j); [|done]. simpl. intros [= <-].
      unfold get. rewrite lookup_delete_eq. simpl. split; [done|tauto].
  - exists {| heap := built (heap s1) cs2;
              trace := trace s1
                ++ [Toggle Remove l1;
                    OptionClick (length (heap s1) + length cs1)] |},
      (length (heap s1) + length cs1), cs2.
    assert (Hlen2 : length cs2 = length cs1).
    { unfold cs2. rewrite length_zip_with, length_seq. lia. }
    split_and!.
    + apply (click_remove (withOptions a1 P) s1
               (seq (length (heap s)) (length cs1)) cs1 i l1 o1).
      * unfold a1. rewrite <- Hlen1. apply rerendered_getArr.
      * apply rerendered_read.
      * apply lookup_seq_lt. lia.
      * done.
      * unfold get, o1 in *.
        by rewrite lookup_insert_ne, lookup_delete_ne.
      * unfold get, o1 in *.
        by rewrite lookup_insert_ne, lookup_delete_ne.
      * left. split; [|done]. unfold get, o1. by rewrite lookup_insert_eq.
    + apply (handed_app s1 _ [Toggle Remove l1]).
    + by apply built_read_at.
    + case_bool_decide as Hal.
      * unfold cs2. rewrite Hal. apply removeUpdated_always.
        by rewrite length_seq.
      * unfold cs2.
        rewrite (removeUpdated_pick _ l1 _ cs1 i o1); try done.
        -- apply Forall_lookup. intros j oj. rewrite Hcs1.
           rewrite list_insert_insert_eq.
           destruct (decide (j = i)) as [->|Hne].
           ++ rewrite list_lookup_insert_eq by (by rewrite length_fmap).
              intros [= <-]. apply lookup_delete_eq.
           ++ rewrite list_lookup_insert_ne, list_lookup_fmap by done.
              destruct (os !! j); [|done]. simpl. intros [= <-].
              apply lookup_delete_eq.
        -- apply NoDup_seq.
        -- apply lookup_seq_lt. lia.
        -- by rewrite length_seq.
Qed.

Lemma select_then_deselect_witness :
  selectThenDeselect (fruitProps SingleAlways None) unselectedState 1.
Proof.
  apply (select_then_deselect (fruitProps SingleAlways None) unselectedState
           [0; 1; 2] unselectedObjects 1 {[ "label" := VStr "pear" ]}).
  - reflexivity.
  - reflexivity.
  - compute_done.
  - repeat constructor.
  - reflexivity.
  - reflexivity.
  - reflexivity.
  - reflexivity.
  - reflexivity.
Defined.

(** Replace the left-hand side of the equation [H] by its value [v]. *)
Ltac evaluates H v :=
  match type of H with
  | ?lhs = _ =>
      let E := fresh "E" in
      assert (E : lhs = v) by reflexivity;
      rewrite E in H; clear E
  end.

(** C2 as it is written fails at four inputs that meet its premises (an
    options array with no checked value, single selection on).  With
    exclusions allowed the second click takes the exclude branch and leaves
    checked "off" on the option; on a disabled option the first click calls
    nothing; in an array that holds one object twice the first click turns
    "on" both positions; and a group label has no click handler at all. *)
Lemma select_then_deselect_counterexample :
  readOptions unselected 3 = Some unselectedObjects
  ∧ Forall (λ o, get o "checked" = VUndefined) unselectedObjects
  ∧ ¬ selectThenDeselect (fruitProps (SingleBool true) (Some true))
        unselectedState 0
  ∧ ¬ selectThenDeselect (fruitProps (SingleBool true) None)
        unselectedState 2
  ∧ ¬ selectThenDeselect (twiceProps (SingleBool true) None) twiceState 0
  ∧ readOptions grouped 2
    = Some [ <["isGroupLabel" := VBool true]> {[ "label" := VStr "Fruit" ]};
             {[ "label" := VStr "apple" ]} ]
  ∧ ¬ selectThenDeselect (groupedProps (SingleBool true) None)
        groupedState 0.
Proof.
  split_and!.
  - reflexivity.
  - repeat constructor.
  - intros (s1 & a1 & os1 & H1 & H2 & _ & H3 & _
            & s2 & a2 & os2 & H5 & H6 & H7 & H8).
    pose (cs1 := zip_with (addUpdated (SingleBool true) 0) [0; 1; 2]
                   unselectedObjects).
    pose (cs2 := zip_with (excludeUpdated 4) [4; 5; 6] cs1).
    evaluates H1
      (Some {| heap := built unselected cs1;
               trace := [Toggle Add 0; OptionClick 7] |}).
    injection H1 as <-.
    evaluates H2 (Some 7). injection H2 as <-.
    evaluates H5
      (Some {| heap :=
                 built (<[4 := CObj (<["checked" := VStr "off"]>
                                       (<["checked" := VStr "on"]>
                                          {[ "label" := VStr "apple" ]}))]>
                          (built unselected cs1)) cs2;
               trace := [Toggle Add 0; OptionClick 7;
                         Toggle Exclude 4; OptionClick 11] |}).
    injection H5 as <-.
    evaluates H6 (Some 11). injection H6 as <-.
    evaluates H7 (Some cs2). injection H7 as <-.
    simpl in H8. apply Forall_cons_1 in H8 as [H8 _].
    vm_compute in H8. discriminate H8.
  - intros (s1 & a1 & os1 & H1 & H2 & _).
    evaluates H1 (Some unselectedState). injection H1 as <-.
    evaluates H2 (@None loc). discriminate H2.
  - intros (s1 & a1 & os1 & H1 & H2 & _ & H3 & H4 & _).
    pose (cs1 := zip_with (addUpdated (SingleBool true) 0) [0; 0]
                   [ ({[ "label" := VStr "apple" ]} : gmap string val);
                     {[ "label" := VStr "apple" ]} ]).
    evaluates H1
      (Some {| heap := built twice cs1;
               trace := [Toggle Add 0; OptionClick 4] |}).
    injection H1 as <-.
    evaluates H2 (Some 4). injection H2 as <-.
    evaluates H3 (Some cs1). injection H3 as <-.
    destruct (H4 1 _ eq_refl) as [Hon _].
    specialize (Hon eq_refl). discriminate Hon.
  - reflexivity.
  - intros (s1 & a1 & os1 & H1 & H2 & _).
    evaluates H1 (Some groupedState). injection H1 as <-.
    evaluates H2 (@None loc). discriminate H2.
Qed.

Lemma rule_Exclude_inv v b :
  DispatchRule.rule v b = Exclude → v = VStr "on" ∧ b = true.
Proof.
  unfold DispatchRule.rule.
  destruct (bool_decide (v = VStr "on")) eqn:E, b; simpl; intros H.
  - apply bool_decide_eq_true in E. by split.
  - by case_bool_decide.
  - by case_bool_decide.
  - by case_bool_decide.
Qed.

(** The exclude handler is entered by a click only when exclusions are
    allowed and the clicked option is "on". *)
Lemma exclude_only_when P opt s s' o l :
  getObj (heap s) opt = Some o →
  onAddOrRemoveOption P opt s = Some s' →
  Toggle Exclude l ∈ newEvents s s' →
  exclusionsOn (allowExclusions P) = true ∧ get o "checked" = VStr "on".
Proof.
  intros Ho Hrun Hin.
  destruct (truthy (get o "disabled")) eqn:Hd.
  - unfold onAddOrRemoveOption in Hrun. rewrite Ho, Hd in Hrun.
    injection Hrun as <-. unfold newEvents in Hin.
    rewrite drop_all in Hin. by apply elem_of_nil in Hin.
  - rewrite (onAddOrRemoveOption_rule P opt s o Ho Hd) in Hrun.
    destruct (run_trace _ _ _ _ _ Hrun) as [a' Hev]. rewrite Hev in Hin.
    apply elem_of_cons in Hin as [Hin|Hin].
    + injection Hin as Ht _. symmetry in Ht.
      apply rule_Exclude_inv in Ht as [? ?]. done.
    + apply list_elem_of_singleton in Hin. discriminate Hin.
Qed.

(** C4 (amended). The exclude handler is entered by a click only when
    exclusions are allowed and the clicked option is "on".  When they are,
    for an option that is neither disabled nor a group label, the click
    hands the owner an array
    in which that option has checked "off"; once the owner has re-rendered
    with it, a second click on the option enters the remove handler, which
    clears the option's checked state, except when single selection is
    'always': then remove leaves it "off". *)
Theorem exclude_then_remove P s arr os i o :
  getArr (heap s) (options P) = Some arr →
  mapM (getObj (heap s)) arr = Some os →
  os !! i = Some o →
  truthy (get o "disabled") = false →
  truthy (get o "isGroupLabel") = false →
  (∀ s' l, clickOption P i s = Some s' →
     Toggle Exclude l ∈ newEvents s s' →
     exclusionsOn (allowExclusions P) = true
     ∧ get o "checked" = VStr "on")
  ∧ (exclusionsOn (allowExclusions P) = true →
     get o "checked" = VStr "on" →
     excludeThenRemove
       (if bool_decide (singleSelection P = SingleAlways)
        then Some (VStr "off") else None) P s i).
Proof.
  intros Ha Hos Ho Hd Hg.
  pose proof Hos as HF. apply mapM_Some in HF.
  pose proof (Forall2_length _ _ _ HF) as Hlen.
  destruct (Forall2_lookup_r _ _ _ _ _ HF Ho) as (l & Hl & Hlo).
  assert (Hi : i < length os) by (by eapply lookup_lt_Some).
  split.
  { intros s' l' Hrun Hin. unfold clickOption in Hrun.
    rewrite Ha, Hl, Hlo, Hg in Hrun. by eapply exclude_only_when. }
  intros Hex Hon.
  set (o1 := <["checked" := VStr "off"]> o).
  set (h1 := <[l := CObj o1]> (heap s)).
  set (cs1 := zip_with (excludeUpdated l) arr os).
  assert (Hh1 : length h1 = length (heap s)) by apply length_insert.
  assert (Hlen1 : length cs1 = length os).
  { unfold cs1. rewrite length_zip_with. lia. }
  assert (Ho1 : cs1 !! i = Some o1).
  { unfold cs1. rewrite (zip_with_lookup_both _ _ _ _ _ _ Hl Ho).
    unfold excludeUpdated. by rewrite bool_decide_true. }
  set (a1 := length (heap s) + length os).
  set (s1 := {| heap := built h1 cs1;
                trace := trace s ++ [Toggle Exclude l; OptionClick a1] |}).
  set (l1 := length h1 + i).
  set (cs2 := zip_with (removeUpdated (singleSelection P) l1)
                (seq (length h1) (length cs1)) cs1).
  exists l, s1, a1, cs1, o1. split_and!.
  - by apply (click_exclude P s arr os i l o).
  - apply newEvents_app.
  - unfold a1. rewrite <- Hh1. by apply built_read_at.
  - done.
  - apply lookup_insert_eq.
  - exists l1,
      {| heap := built (heap s1) cs2;
         trace := trace s1
           ++ [Toggle Remove l1;
               OptionClick (length (heap s1) + length cs1)] |},
      (length (heap s1) + length cs1), cs2,
      (removeUpdated (singleSelection P) l1 l1 o1).
    split_and!.
    + apply (click_remove (withOptions a1 P) s1
               (seq (length h1) (length cs1)) cs1 i l1 o1).
      * unfold a1. rewrite <- Hh1, <- Hlen1. apply rerendered_getArr.
      * apply rerendered_read.
      * apply lookup_seq_lt. lia.
      * done.
      * unfold get, o1 in *. by rewrite lookup_insert_ne.
      * unfold get, o1 in *. by rewrite lookup_insert_ne.
      * right. unfold get, o1. by rewrite lookup_insert_eq.
    + apply newEvents_app.
    + apply built_read_at. unfold cs2.
      rewrite length_zip_with, length_seq. lia.
    + unfold cs2. apply zip_with_lookup_both; [|done].
      apply lookup_seq_lt. lia.
    + unfold removeUpdated. rewrite bool_decide_true by done. simpl.
      case_bool_decide; simpl.
      * apply lookup_insert_eq.
      * apply lookup_delete_eq.
Qed.

Lemma exclude_then_remove_witness :
  let P := fruitProps (SingleBool true) (Some true) in
  (∀ s' l, clickOption P 1 fruitState = Some s' →
     Toggle Exclude l ∈ newEvents fruitState s' →
     exclusionsOn (allowExclusions P) = true
     ∧ get (<["checked" := VStr "on"]> {[ "label" := VStr "pear" ]})
         "checked" = VStr "on")
  ∧ (exclusionsOn (allowExclusions P) = true →
     get (<["checked" := VStr "on"]> {[ "label" := VStr "pear" ]})
       "checked" = VStr "on" →
     excludeThenRemove None P fruitState 1).
Proof.
  exact (exclude_then_remove (fruitProps (SingleBool true) (Some true))
           fruitState [0; 1; 2] fruitObjects 1
           (<["checked" := VStr "on"]> {[ "label" := VStr "pear" ]})
           eq_refl eq_refl eq_refl eq_refl eq_refl).
Defined.

(** C4 as it is written fails when single selection is 'always': the
    option is "on", not disabled, exclusions are allowed, the first click
    excludes it, and the second click enters remove, which leaves it
    "off" instead of clearing it.  It also fails on a group label that is
    "on": the row has no click handler, so no handler is entered. *)
Lemma exclude_then_remove_counterexample :
  let P := fruitProps SingleAlways (Some true) in
  let pear := <["checked" := VStr "on"]> {[ "label" := VStr "pear" ]} in
  readOptions fruit (options P) = Some fruitObjects
  ∧ fruitObjects !! 1 = Some pear
  ∧ exclusionsOn (allowExclusions P) = true
  ∧ get pear "checked" = VStr "on"
  ∧ truthy (get pear "disabled") = false
  ∧ ¬ excludeThenRemove None P fruitState 1
  ∧ exclusionsOn (allowExclusions (groupedProps SingleUnset (Some true)))
    = true
  ∧ readOptions groupedOn 2
    = Some [ <["checked" := VStr "on"]>
               (<["isGroupLabel" := VBool true]>
                  {[ "label" := VStr "Fruit" ]});
             {[ "label" := VStr "apple" ]} ]
  ∧ ¬ excludeThenRemove None (groupedProps SingleUnset (Some true))
        groupedOnState 0.
Proof.
  split_and!; [reflexivity..| |reflexivity|reflexivity|].
  2:{ intros (l & s1 & a1 & os1 & o1 & H1 & H2 & _).
      evaluates H1 (Some groupedOnState). injection H1 as <-.
      evaluates H2 (@nil event). discriminate H2. }
  intros (l & s1 & a1 & os1 & o1 & H1 & H2 & _ & _ & _
          & l1 & s2 & a2 & os2 & o2 & G1 & G2 & G3 & G4 & G5).
  pose (cs1 := zip_with (excludeUpdated 1) [0; 1; 2] fruitObjects).
  pose (pear1 := <["checked" := VStr "off"]>
                   (<["checked" := VStr "on"]>
                      ({[ "label" := VStr "pear" ]} : gmap string val))).
  evaluates H1
    (Some {| heap := built (<[1 := CObj pear1]> fruit) cs1;
             trace := [Toggle Exclude 1; OptionClick 7] |}).
  injection H1 as <-.
  evaluates H2 [Toggle Exclude 1; OptionClick 7].
  injection H2 as <- <-.
  evaluates G1
    (Some {| heap := built (built (<[1 := CObj pear1]> fruit) cs1) cs1;
             trace := [Toggle Exclude 1; OptionClick 7;
                       Toggle Remove 5; OptionClick 11] |}).
  injection G1 as <-.
  evaluates G2 [Toggle Remove 5; OptionClick 11].
  injection G2 as <- <-.
  evaluates G3 (Some cs1). injection G3 as <-.
  evaluates G4 (Some pear1). injection G4 as <-.
  vm_compute in G5. discriminate G5.
Qed.

End SelectableListFacts.

(** ** The update button *)

Module SuperUpdateButtonFacts.
Import SuperUpdateButton.

(** C6. The label and the tooltip text depend on the three flags only:
    with [needsUpdate] set and neither [isLoading] nor [isDisabled] the
    label is "Update"; with [isLoading] the label is "Updating" whatever
    the other flags; with [isDisabled] the tooltip text is "Cannot update"
    whatever the other flags; and [render] as a whole does not look at
    [showTooltip]. *)
Theorem render_label_and_tooltip :
  (∀ st, label {| isDisabled := false; isLoading := false;
                  needsUpdate := true; showTooltip := st |} = "Update")
  ∧ (∀ d nu st, label {| isDisabled := d; isLoading := true;
                         needsUpdate := nu; showTooltip := st |}
                = "Updating")
  ∧ (∀ l nu st, tooltipText {| isDisabled := true; isLoading := l;
                               needsUpdate := nu; showTooltip := st |}
                = Some "Cannot update")
  ∧ (∀ d l nu st st',
       render {| isDisabled := d; isLoading := l; needsUpdate := nu;
                 showTooltip := st |}
       = render {| isDisabled := d; isLoading := l; needsUpdate := nu;
                   showTooltip := st' |}).
Proof.
  split_and!.
  - done.
  - intros d nu st. unfold label, render. simpl. by rewrite orb_true_r.
  - done.
  - done.
Qed.

(** *** The tooltip timer *)

Lemma shouldShow_true p :
  shouldShow p = true ↔
  showTooltip p = true ∧ needsUpdate p = true ∧ isDisabled p = false
  ∧ isLoading p = false.
Proof.
  unfold shouldShow.
  destruct (showTooltip p), (needsUpdate p), (isDisabled p), (isLoading p);
    simpl; intuition discriminate.
Qed.

Lemma componentDidUpdate_timers w :
  ∃ new, timers (componentDidUpdate w) = timers w ++ new.
Proof.
  unfold componentDidUpdate. fold (shouldShow (props w)).
  destruct (shouldShow (props w)).
  - unfold this_showTooltip.
    destruct (_isMounted w), (tooltip w); simpl; eauto.
  - exists []. by rewrite app_nil_r.
Qed.

(** While the component is not mounted no action but [DidMount] reaches
    the tooltip node. *)
Lemma step_unmounted a w :
  a ≠ DidMount → _isMounted w = false →
  _isMounted (step a w) = false ∧ calls (step a w) = calls w.
Proof.
  intros Ha Hm. destruct a as [| |p|node|dt|id]; simpl; try done.
  - unfold componentDidUpdate, this_showTooltip. simpl. rewrite Hm.
    by destruct (_ && _).
  - unfold fire. destruct (list_find _ _) as [[? [? due]]|]; [|done].
    destruct (due <=? clock w)%N; [|done].
    unfold this_hideTooltip. simpl. by rewrite Hm.
Qed.

Lemma run_unmounted acts : ∀ w,
  DidMount ∉ acts → _isMounted w = false →
  _isMounted (run acts w) = false ∧ calls (run acts w) = calls w.
Proof.
  induction acts as [|a acts IH]; intros w Hnot Hm; [done|].
  apply not_elem_of_cons in Hnot as [Ha Hnot].
  destruct (step_unmounted a w) as [Hm' Hc']; [done..|].
  destruct (IH (step a w) Hnot Hm') as [? ?].
  unfold run in *. simpl. split; congruence.
Qed.

Lemma find_new_timer (ts : list (nat * N)) id due :
  Forall (λ t : nat * N, t.1 < id) ts →
  list_find (λ t : nat * N, t.1 = id) (ts ++ [(id, due)])
  = Some (length ts, (id, due)).
Proof.
  intros Hfresh. rewrite list_find_app_r.
  - simpl. rewrite decide_True by done. done.
  - apply list_find_None. eapply Forall_impl; [exact Hfresh|].
    simpl. lia.
Qed.

Lemma drop_new_timer (ts : list (nat * N)) id due :
  Forall (λ t : nat * N, t.1 < id) ts →
  filter (λ t : nat * N, t.1 ≠ id) (ts ++ [(id, due)]) = ts.
Proof.
  intros Hfresh. rewrite filter_app.
  rewrite (filter_cons_False _ (id, due)) by (simpl; tauto).
  rewrite filter_nil, app_nil_r.
  induction Hfresh as [|t ts Ht _ IH]; [done|].
  rewrite filter_cons_True by lia. by rewrite IH.
Qed.

(** Between mount and unmount the component stays mounted with its tooltip
    ref attached, which is the state every update finds it in. *)
Lemma step_whileMounted a w node :
  whileMounted a = true →
  _isMounted w = true → tooltip w = Some node →
  _isMounted (step a w) = true ∧ tooltip (step a w) = Some node.
Proof.
  intros Ha Hm Hn. destruct a as [| |p|n|dt|id]; simpl in *; try done.
  - unfold componentDidUpdate, this_showTooltip. simpl. rewrite Hm, Hn.
    by destruct (_ && _).
  - unfold fire. destruct (list_find _ _) as [[? [? due]]|]; [|done].
    destruct (due <=? clock w)%N; [|done].
    unfold this_hideTooltip. simpl. by rewrite Hm, Hn.
Qed.

Lemma run_whileMounted acts node : ∀ w,
  forallb whileMounted acts = true →
  _isMounted w = true → tooltip w = Some node →
  _isMounted (run acts w) = true ∧ tooltip (run acts w) = Some node.
Proof.
  induction acts as [|a acts IH]; intros w Hall Hm Hn; [done|].
  simpl in Hall. apply andb_true_iff in Hall as [Ha Hall].
  destruct (step_whileMounted a w node Ha Hm Hn) as [Hm' Hn'].
  apply (IH (step a w) Hall Hm' Hn').
Qed.

(** C7. In a mounted component whose tooltip ref is attached, an update
    with [showTooltip], [needsUpdate], not [isDisabled] and not [isLoading]
    calls [showToolTip] on the node and adds one timer, due 2000 ms after
    the update, remembered in [tooltipTimeout]; if timer ids are fresh,
    that timer does nothing before 2000 ms have passed and calls
    [hideToolTip] once they have.  No update, whatever the props, removes a
    timer that was pending.  And once the component is unmounted, nothing
    that happens short of a new mount (timers firing, updates, refs) calls
    the tooltip node. *)
Theorem tooltip_shown_then_dismissed w node :
  _isMounted w = true →
  tooltip w = Some node →
  showTooltip (props w) = true →
  needsUpdate (props w) = true →
  isDisabled (props w) = false →
  isLoading (props w) = false →
  let w' := componentDidUpdate w in
  calls w' = calls w ++ [(clock w, ShowToolTip node)]
  ∧ timers w' = timers w ++ [(nextTimerId w, (clock w + 2000)%N)]
  ∧ tooltipTimeout w' = Some (nextTimerId w)
  ∧ (freshTimerIds w → ∀ dt,
       let later := elapse dt w' in
       if (2000 <=? dt)%N
       then calls (fire (nextTimerId w) later)
            = calls w' ++ [((clock w + dt)%N, HideToolTip node)]
            ∧ timers (fire (nextTimerId w) later) = timers w
       else fire (nextTimerId w) later = later)
  ∧ (∀ w0 p t, t ∈ timers w0 → t ∈ timers (step (DidUpdate p) w0))
  ∧ (∀ w0 acts, DidMount ∉ acts →
       calls (run acts (componentWillUnmount w0)) = calls w0).
Proof.
  intros Hm Hn H1 H2 H3 H4 w'.
  assert (Hw' : w' = setTimeout_hideTooltip 2000 (log (ShowToolTip node) w)).
  { unfold w', componentDidUpdate, this_showTooltip.
    by rewrite H1, H2, H3, H4, Hm, Hn. }
  split_and!.
  - by rewrite Hw'.
  - by rewrite Hw'.
  - by rewrite Hw'.
  - intros Hfresh dt later. unfold later, fire. rewrite Hw'. simpl.
    rewrite (find_new_timer _ _ _ Hfresh).
    replace (clock w + 2000 <=? clock w + dt)%N with (2000 <=? dt)%N.
    2:{ destruct (N.leb_spec 2000 dt), (N.leb_spec (clock w + 2000)
          (clock w + dt)); try done; lia. }
    destruct (2000 <=? dt)%N; [|done].
    unfold this_hideTooltip. simpl. rewrite Hm, Hn. simpl.
    by rewrite (drop_new_timer _ _ _ Hfresh).
  - intros w0 p t Ht. simpl.
    destruct (componentDidUpdate_timers (setProps p w0)) as [new ->].
    simpl. apply elem_of_app. by left.
  - intros w0 acts Hnot.
    by destruct (run_unmounted acts (componentWillUnmount w0) Hnot eq_refl).
Qed.

Lemma tooltip_shown_then_dismissed_witness :
  let w' := componentDidUpdate justMounted in
  calls w' = calls justMounted ++ [(clock justMounted, ShowToolTip 7)]
  ∧ timers w'
    = timers justMounted
      ++ [(nextTimerId justMounted, (clock justMounted + 2000)%N)]
  ∧ tooltipTimeout w' = Some (nextTimerId justMounted)
  ∧ (freshTimerIds justMounted → ∀ dt,
       let later := elapse dt w' in
       if (2000 <=? dt)%N
       then calls (fire (nextTimerId justMounted) later)
            = calls w' ++ [((clock justMounted + dt)%N, HideToolTip 7)]
            ∧ timers (fire (nextTimerId justMounted) later)
              = timers justMounted
       else fire (nextTimerId justMounted) later = later)
  ∧ (∀ w0 p t, t ∈ timers w0 → t ∈ timers (step (DidUpdate p) w0))
  ∧ (∀ w0 acts, DidMount ∉ acts →
       calls (run acts (componentWillUnmount w0)) = calls w0).
Proof.
  apply (tooltip_shown_then_dismissed justMounted 7); reflexivity.
Defined.

(** A run of the whole story: mount, two updates 500 ms apart (the first
    timer is still pending after the second), unmount at 1000 ms, both
    timers firing after that.  The node is shown twice and never hidden. *)
Example two_updates_then_unmount :
  let w := run [ DidUpdate actionable; Elapse 500; DidUpdate actionable ]
             justMounted in
  timers w = [(1, 2000%N); (2, 2500%N)]
  ∧ calls (run [ Elapse 500; WillUnmount; SetRef None; Elapse 2000;
                 TimerFires 1; TimerFires 2 ] w)
    = [(0%N, ShowToolTip 7); (500%N, ShowToolTip 7)].
Proof. split; reflexivity. Qed.

(** Left mounted instead, each timer hides the tooltip when it fires. *)
Example two_updates_stay_mounted :
  calls (run [ DidUpdate actionable; Elapse 500; DidUpdate actionable;
               Elapse 1499; TimerFires 1; Elapse 1; TimerFires 1;
               Elapse 500; TimerFires 2 ] justMounted)
  = [ (0%N, ShowToolTip 7); (500%N, ShowToolTip 7);
      (2000%N, HideToolTip 7); (2500%N, HideToolTip 7) ].
Proof. reflexivity. Qed.

End SuperUpdateButtonFacts.

(** ** parseTimeParts *)

Module QuickSelectFacts.
Import QuickSelect.

(** The characters of a decimal numeral are digits... *)
Lemma uintString_digits d :
  Forall (λ c, isDigit c = true)
    (String.list_ascii_of_string
       (DecimalString.NilEmpty.string_of_uint d)).
Proof. induction d; simpl; constructor; done. Qed.

(** ... and [parseInt] reads them back. *)
Lemma parseInt10_uintString d : ∀ acc,
  foldl (λ acc c, 10 * acc + digitValue c) acc
    (String.list_ascii_of_string
       (DecimalString.NilEmpty.string_of_uint d))
  = Nat.of_uint_acc d acc.
Proof.
  induction d; intros acc; simpl; [done|..];
    rewrite IHd, Nat.tail_mul_spec; f_equal;
    unfold digitValue; simpl; lia.
Qed.

Lemma parseInt10_decimal n :
  parseInt10 (String.list_ascii_of_string (decimal n)) = n.
Proof.
  unfold parseInt10, decimal. rewrite parseInt10_uintString.
  apply DecimalNat.Unsigned.of_to.
Qed.

(** A run of digits followed by something that is not a digit is split
    right there. *)
Lemma spanDigits_app s u rest :
  Forall (λ c, isDigit c = true) (String.list_ascii_of_string s) →
  isDigit u = false →
  spanDigits (s +:+ String u rest)
  = (String.list_ascii_of_string s, String u rest).
Proof.
  intros Hs Hu. induction s as [|c s IH]; simpl.
  - by rewrite Hu.
  - apply Forall_cons_1 in Hs as [-> Hs]. by rewrite IH.
Qed.

Lemma stripPrefix_now rest : stripPrefix "now" ("now" +:+ rest) = Some rest.
Proof. done. Qed.

Section Parser.
Variable units : list ascii.
Variable hoursSinceStartOf : ascii → nat.

(** The grammar's signed form, for the sign character [op]. *)
Lemma parseOffset_signed (op : ascii) n u :
  op = "+"%char ∨ op = "-"%char →
  0 < n → u ∈ units → isDigit u = false →
  parseOffset units hoursSinceStartOf
    (String op (decimal n +:+ String u EmptyString))
  = Some {| timeTense := if bool_decide (op = "+"%char) then next
                         else last;
            timeUnits := String u EmptyString;
            timeValue := n |}.
Proof.
  intros Hop Hn Hu Hnd. unfold parseOffset.
  assert (bool_decide (op = "+"%char) || bool_decide (op = "-"%char)
          = true) as ->.
  { destruct Hop as [-> | ->]; done. }
  rewrite spanDigits_app by (done || apply uintString_digits).
  pose proof (parseInt10_decimal n) as Hval.
  destruct (String.list_ascii_of_string (decimal n)) as [|d ds] eqn:E.
  { unfold parseInt10 in Hval. simpl in Hval. lia. }
  rewrite Hval. unfold isUnit. rewrite bool_decide_true by done.
  destruct (Nat.eqb_spec n 0); [lia|]. done.
Qed.

End Parser.

(** C8. For a sign [op] (plus or minus), a positive integer [n] and a unit
    letter [u] of the alphabet, the expression made of "now", the sign,
    [n] in decimal and [u] parses, whatever the fallback, to the tense of
    the sign (next for plus, last for minus), the value [n] and the unit
    [u]. *)
Theorem parseTimeParts_signed units hoursSinceStartOf (op : ascii) n u
    fallback :
  op = "+"%char ∨ op = "-"%char →
  0 < n → u ∈ units → isDigit u = false →
  parseTimeParts units hoursSinceStartOf
    ("now" +:+ String op (decimal n +:+ String u EmptyString)) fallback
  = Some {| timeTense := if bool_decide (op = "+"%char) then next else last;
            timeUnits := String u EmptyString;
            timeValue := n |}.
Proof.
  intros Hop Hn Hu Hnd. unfold parseTimeParts.
  rewrite stripPrefix_now. by apply parseOffset_signed.
Qed.

Lemma parseTimeParts_signed_witness :
  parseTimeParts dateMathUnits (λ _, 6) "now-120d" "now+5m"
  = Some {| timeTense := last; timeUnits := "d"; timeValue := 120 |}.
Proof.
  apply (parseTimeParts_signed dateMathUnits (λ _, 6) "-"%char 120
           "d"%char "now+5m").
  - by right.
  - lia.
  - compute_done.
  - reflexivity.
Defined.

(** C9. The expression "now" parses to tense next with the unit and the
    value that the fallback expression parses to; with the fallback
    "now+5m" that is next, "m", 5. *)
Theorem parseTimeParts_now units hoursSinceStartOf fallback other parts :
  fallback ≠ "now" →
  parseTimeParts units hoursSinceStartOf fallback other = Some parts →
  parseTimeParts units hoursSinceStartOf "now" fallback
  = Some {| timeTense := next; timeUnits := timeUnits parts;
            timeValue := timeValue parts |}
  ∧ parseTimeParts dateMathUnits hoursSinceStartOf "now" "now+5m"
    = Some {| timeTense := next; timeUnits := "m"; timeValue := 5 |}.
Proof.
  intros Hne Hfb. split; [|reflexivity].
  unfold parseTimeParts in *.
  change (stripPrefix "now" "now") with (Some EmptyString).
  destruct (stripPrefix "now" fallback) as [rest|] eqn:E; [|done].
  destruct rest as [|c rest].
  - exfalso. apply Hne. clear -E.
    destruct fallback as [|a [|b [|c [|d fb]]]]; simpl in E;
      repeat case_bool_decide; simplify_eq; done.
  - by rewrite Hfb.
Qed.

Lemma parseTimeParts_now_witness :
  parseTimeParts dateMathUnits (λ _, 6) "now" "now-15m"
  = Some {| timeTense := next; timeUnits := "m"; timeValue := 15 |}
  ∧ parseTimeParts dateMathUnits (λ _, 6) "now" "now+5m"
    = Some {| timeTense := next; timeUnits := "m"; timeValue := 5 |}.
Proof.
  apply (parseTimeParts_now dateMathUnits (λ _, 6) "now-15m" "now"
           {| timeTense := last; timeUnits := "m"; timeValue := 15 |}).
  - discriminate.
  - reflexivity.
Defined.

(** The cases of the test-suite, the calendar library stubbed to six hours
    as the suite does. *)
Example should_parse_now :
  parseTimeParts dateMathUnits (λ _, 6) "now" "now+5m"
  = Some {| timeTense := next; timeUnits := "m"; timeValue := 5 |}.
Proof. reflexivity. Qed.

Example should_parse_now_minus_2h :
  parseTimeParts dateMathUnits (λ _, 6) "now-2h" "now+5m"
  = Some {| timeTense := last; timeUnits := "h"; timeValue := 2 |}.
Proof. reflexivity. Qed.

Example should_parse_now_plus_2h :
  parseTimeParts dateMathUnits (λ _, 6) "now+2h" "now+5m"
  = Some {| timeTense := next; timeUnits := "h"; timeValue := 2 |}.
Proof. reflexivity. Qed.

Example should_parse_now_slash_d :
  parseTimeParts dateMathUnits (λ _, 6) "now/d" "now+5m"
  = Some {| timeTense := last; timeUnits := "h"; timeValue := 6 |}.
Proof. reflexivity. Qed.

End QuickSelectFacts.

(** ** The list as a controlled component *)

Module ControlledListFacts.
Import Js JsFacts SelectableList SelectableListFacts ControlledList.

Lemma handed_none s : handed s s = None.
Proof. unfold handed, newEvents. by rewrite drop_all. Qed.

Lemma rerender_same P s : rerender P s s = P.
Proof. unfold rerender. by rewrite handed_none. Qed.

Lemma rerender_handed P s h evs a :
  rerender P s {| heap := h; trace := trace s ++ evs ++ [OptionClick a] |}
  = withOptions a P.
Proof. unfold rerender. by rewrite handed_app. Qed.

Lemma shown_built P h1 cs tr a :
  a = length h1 + length cs →
  shown (withOptions a P) {| heap := built h1 cs; trace := tr |} cs.
Proof.
  intros ->. exists (seq (length h1) (length cs)). split_and!.
  - apply built_getArr.
  - apply read_block.
  - apply NoDup_seq.
Qed.

Lemma addUpdated_multi ss l (arr : list loc) os i o :
  singleSelectionOn ss = false →
  NoDup arr → arr !! i = Some l → os !! i = Some o →
  length arr = length os →
  zip_with (addUpdated ss l) arr os = <[i := <["checked" := VStr "on"]> o]> os.
Proof.
  intros Hss Hnd Hl Ho Hlen.
  rewrite <- (list_fmap_id os) at 2.
  rewrite <- (zip_with_pick (insert "checked" (VStr "on")) id arr os i l o)
    by done.
  apply zip_with_ext; [|done..]. intros l' x.
  unfold addUpdated. by rewrite Hss.
Qed.

Lemma excludeUpdated_pick l (arr : list loc) os i o :
  NoDup arr → arr !! i = Some l → os !! i = Some o →
  length arr = length os →
  zip_with (excludeUpdated l) arr os = <[i := <["checked" := VStr "off"]> o]> os.
Proof.
  intros Hnd Hl Ho Hlen.
  rewrite <- (list_fmap_id os) at 2.
  by rewrite <- (zip_with_pick (insert "checked" (VStr "off")) id arr os i l o).
Qed.

(** One click, seen from the owner: the handlers return, and the array
    they hand over holds what [reduce] computes. *)
Lemma click_step P s os i :
  shown P s os → i < length os →
  ∃ s',
    clickOption P i s = Some s'
    ∧ shown (rerender P s s') s'
        (reduce (singleSelection P) (allowExclusions P) i os)
    ∧ singleSelection (rerender P s s') = singleSelection P
    ∧ allowExclusions (rerender P s s') = allowExclusions P.
Proof.
  intros (arr & Ha & Hos & Hnd) Hi.
  pose proof Hos as HF. apply mapM_Some in HF.
  pose proof (Forall2_length _ _ _ HF) as Hlen.
  destruct (lookup_lt_is_Some_2 os i Hi) as [o Ho].
  destruct (Forall2_lookup_r _ _ _ _ _ HF Ho) as (l & Hl & Hlo).
  unfold reduce. rewrite Ho.
  destruct (truthy (get o "isGroupLabel")) eqn:Hg.
  { exists s. rewrite rerender_same. split_and!; [|by exists arr|done..].
    unfold clickOption. by rewrite Ha, Hl, Hlo, Hg. }
  destruct (truthy (get o "disabled")) eqn:Hd.
  { exists s. rewrite rerender_same. split_and!; [|by exists arr|done..].
    unfold clickOption, onAddOrRemoveOption.
    by rewrite Ha, Hl, Hlo, Hg, Hd. }
  assert (Hh : ∀ t h1 cs,
    length h1 = length (heap s) → length cs = length os →
    let s' := {| heap := built h1 cs;
                 trace := trace s
                   ++ [Toggle t l; OptionClick (length (heap s) + length os)]
              |} in
    shown (rerender P s s') s' cs
    ∧ singleSelection (rerender P s s') = singleSelection P
    ∧ allowExclusions (rerender P s s') = allowExclusions P).
  { intros t h1 cs Hh1 Hcs s'.
    assert (rerender P s s' = withOptions (length (heap s) + length os) P)
      as -> by apply (rerender_handed P s _ [Toggle t l]).
    split; [|done]. apply shown_built. lia. }
  destruct (strictEq (get o "checked") (VStr "on")
            && exclusionsOn (allowExclusions P)) eqn:E1.
  { apply andb_true_iff in E1 as [Hon Hex].
    apply bool_decide_eq_true in Hon.
    eexists. split; [by apply (click_exclude P s arr os i l o)|].
    rewrite (excludeUpdated_pick l arr os i o) by done.
    apply Hh; [apply length_insert|by rewrite length_insert]. }
  destruct (strictEq (get o "checked") (VStr "on")
            || strictEq (get o "checked") (VStr "off")) eqn:E2.
  { eexists. split.
    { apply (click_remove P s arr os i l o); try done.
      apply orb_true_iff in E2 as [Hon|Hoff].
      - left. rewrite Hon in E1. apply bool_decide_eq_true in Hon. done.
      - right. by apply bool_decide_eq_true in Hoff. }
    case_bool_decide as Hal.
    - replace (zip_with (removeUpdated (singleSelection P) l) arr os)
        with os by (rewrite Hal; symmetry; by apply removeUpdated_always).
      by apply Hh.
    - rewrite (removeUpdated_pick _ l arr os i o) by done.
      apply Hh; [done|by rewrite length_insert]. }
  apply orb_false_iff in E2 as [Hon Hoff].
  apply bool_decide_eq_false in Hon, Hoff.
  eexists. split; [by apply (click_add P s arr os i l o)|].
  destruct (singleSelectionOn (singleSelection P)) eqn:Hss.
  - rewrite (addUpdated_single _ l arr os i o) by done.
    apply Hh; [done|by rewrite length_insert, length_fmap].
  - rewrite (addUpdated_multi _ l arr os i o) by done.
    apply Hh; [done|by rewrite length_insert].
Qed.

Lemma reduce_length ss excl i os : length (reduce ss excl i os) = length os.
Proof.
  unfold reduce. repeat case_match;
    rewrite ?length_insert, ?length_fmap; done.
Qed.

(** A run of clicks on rows that exist returns, and shows what folding
    [reduce] over the rows computes. *)
Lemma clicks_steps rows : ∀ P s os,
  shown P s os → Forall (λ i, i < length os) rows →
  ∃ P' s',
    clicks P s rows = Some (P', s')
    ∧ shown P' s'
        (foldl (λ os i, reduce (singleSelection P) (allowExclusions P) i os)
           os rows)
    ∧ singleSelection P' = singleSelection P
    ∧ allowExclusions P' = allowExclusions P.
Proof.
  induction rows as [|i rows IH]; intros P s os Hsh Hrows.
  { exists P, s. by split_and!. }
  apply Forall_cons_1 in Hrows as [Hi Hrows].
  destruct (click_step P s os i Hsh Hi) as (s1 & Hc & Hsh1 & Hss & Hex).
  destruct (IH _ _ _ Hsh1) as (P' & s' & Hcs & Hsh' & Hss' & Hex').
  { eapply Forall_impl; [exact Hrows|]. intros j.
    by rewrite reduce_length. }
  exists P', s'. simpl. rewrite Hc. split_and!; [done| |congruence..].
  by rewrite Hss, Hex in Hsh'.
Qed.

(** *** What [reduce] keeps *)

#[local] Instance sameButChecked_reflexive : Reflexive sameButChecked.
Proof. intros o. apply sameButChecked_refl. Qed.

#[local] Instance sameButChecked_transitive : Transitive sameButChecked.
Proof. intros o1 o2 o3. apply sameButChecked_trans. Qed.

Section Reduce.
Variables (ss : SingleSelection) (excl : option bool).

Lemma same_insert os i o o' :
  os !! i = Some o → sameButChecked o o' →
  Forall2 sameButChecked os (<[i := o']> os).
Proof.
  intros Ho Hsame. rewrite <- (list_insert_id os i o Ho) at 1.
  apply Forall2_insert; [reflexivity|done].
Qed.

Lemma same_fmap_delete os :
  Forall2 sameButChecked os (delete "checked" <$> os).
Proof.
  apply Forall2_fmap_r, Forall_Forall2_diag, Forall_forall.
  intros o _. apply sameButChecked_delete.
Qed.

Lemma reduce_same i os : Forall2 sameButChecked os (reduce ss excl i os).
Proof.
  unfold reduce. destruct (os !! i) as [o|] eqn:Ho; [|reflexivity].
  repeat case_match; try reflexivity;
    try (apply (same_insert _ _ o); [done|];
         auto using sameButChecked_insert, sameButChecked_delete).
  etrans; [apply same_fmap_delete|].
  apply (same_insert _ _ (delete "checked" o)).
  - by rewrite list_lookup_fmap, Ho.
  - apply sameButChecked_insert.
Qed.

(** Counting selected options across an update of one position. *)
Lemma countOn_insert os : ∀ i o o',
  os !! i = Some o →
  countOn (<[i := o']> os) + (if decide (isOn o) then 1 else 0)
  = countOn os + (if decide (isOn o') then 1 else 0).
Proof.
  unfold countOn.
  induction os as [|x os IH]; intros [|i] o o' Ho; simplify_eq/=.
  - rewrite !filter_cons. repeat case_decide; simpl; lia.
  - rewrite !filter_cons. specialize (IH i o o' Ho).
    destruct (decide (isOn x)); simpl; lia.
Qed.

Lemma countOn_fmap_delete os : countOn (delete "checked" <$> os) = 0.
Proof.
  unfold countOn. induction os as [|x os IH]; [done|]. simpl.
  rewrite filter_cons_False; [done|].
  unfold isOn, get. by rewrite lookup_delete_eq.
Qed.

Lemma isOn_insert_on o : isOn (<["checked" := VStr "on"]> o).
Proof. unfold isOn, get. by rewrite lookup_insert_eq. Qed.

Lemma not_isOn_insert_off o : ¬ isOn (<["checked" := VStr "off"]> o).
Proof. unfold isOn, get. by rewrite lookup_insert_eq. Qed.

Lemma not_isOn_delete o : ¬ isOn (delete "checked" o).
Proof. unfold isOn, get. by rewrite lookup_delete_eq. Qed.

Lemma reduce_at_most_one i os :
  singleSelectionOn ss = true → countOn os ≤ 1 →
  countOn (reduce ss excl i os) ≤ 1.
Proof.
  intros Hss Hle. unfold reduce.
  destruct (os !! i) as [o|] eqn:Ho; [|done].
  destruct (truthy _); [done|].
  destruct (truthy _); [done|].
  destruct (_ && _).
  { pose proof (countOn_insert os i o (<["checked" := VStr "off"]> o) Ho)
      as Hc.
    rewrite (decide_False _ _ (not_isOn_insert_off o)) in Hc.
    destruct (decide (isOn o)); lia. }
  destruct (_ || _).
  { case_bool_decide; [done|].
    pose proof (countOn_insert os i o (delete "checked" o) Ho) as Hc.
    rewrite (decide_False _ _ (not_isOn_delete o)) in Hc.
    destruct (decide (isOn o)); lia. }
  rewrite Hss.
  pose proof (countOn_insert (delete "checked" <$> os) i
                (delete "checked" o)
                (<["checked" := VStr "on"]> (delete "checked" o))) as H.
  rewrite list_lookup_fmap, Ho in H. specialize (H eq_refl).
  rewrite countOn_fmap_delete in H.
  rewrite (decide_False _ _ (not_isOn_delete o)) in H.
  rewrite (decide_True _ _ (isOn_insert_on _)) in H. lia.
Qed.

Lemma reduce_always_one i os :
  ss = SingleAlways → exclusionsOn excl = false →
  countOn os = 1 → countOn (reduce ss excl i os) = 1.
Proof.
  intros -> Hex Hone. unfold reduce.
  destruct (os !! i) as [o|] eqn:Ho; [|done].
  destruct (truthy _); [done|].
  destruct (truthy _); [done|].
  rewrite Hex, andb_false_r.
  destruct (_ || _); [done|]. simpl.
  pose proof (countOn_insert (delete "checked" <$> os) i
                (delete "checked" o)
                (<["checked" := VStr "on"]> (delete "checked" o))) as H.
  rewrite list_lookup_fmap, Ho in H. specialize (H eq_refl).
  rewrite countOn_fmap_delete in H.
  rewrite (decide_False _ _ (not_isOn_delete o)) in H.
  rewrite (decide_True _ _ (isOn_insert_on _)) in H. lia.
Qed.

Lemma reduce_no_off i os :
  exclusionsOn excl = false →
  Forall (λ o, ¬ isOff o) os → Forall (λ o, ¬ isOff o) (reduce ss excl i os).
Proof.
  intros Hex Hno. unfold reduce.
  destruct (os !! i) as [o|] eqn:Ho; [|done].
  assert (Hdel : ∀ x : gmap string val, ¬ isOff (delete "checked" x)).
  { intros x. unfold isOff, get. by rewrite lookup_delete_eq. }
  assert (Hon : ∀ x : gmap string val,
            ¬ isOff (<["checked" := VStr "on"]> x)).
  { intros x. unfold isOff, get. by rewrite lookup_insert_eq. }
  destruct (truthy _); [done|].
  destruct (truthy _); [done|].
  rewrite Hex, andb_false_r.
  destruct (_ || _).
  { case_bool_decide; [done|]. by apply Forall_insert. }
  destruct (singleSelectionOn ss).
  - apply Forall_insert; [|done]. apply Forall_fmap, Forall_forall.
    intros x _. apply Hdel.
  - by apply Forall_insert.
Qed.

Lemma reduce_others i j os :
  singleSelectionOn ss = false → j ≠ i →
  reduce ss excl i os !! j = os !! j.
Proof.
  intros Hss Hne. unfold reduce. rewrite Hss.
  repeat case_match; try done; by rewrite list_lookup_insert_ne.
Qed.

End Reduce.

Lemma foldl_reduce_invariant ss excl (Inv : list (gmap string val) → Prop)
    rows :
  (∀ i os, Inv os → Inv (reduce ss excl i os)) →
  ∀ os, Inv os → Inv (foldl (λ os i, reduce ss excl i os) os rows).
Proof.
  intros Hstep. induction rows as [|i rows IH]; intros os Hos; [done|].
  simpl. apply IH. by apply Hstep.
Qed.

Lemma shown_read P s os :
  shown P s os → readOptions (heap s) (options P) = Some os.
Proof.
  intros (arr & Ha & Hos & _). unfold readOptions. by rewrite Ha.
Qed.

(** *** Toggling one option back and forth *)

Section Cycle.
Variables (ss : SingleSelection) (excl : option bool) (i : nat)
  (os : list (gmap string val)) (o : gmap string val).
Hypothesis Ho : os !! i = Some o.
Hypothesis Henabled : truthy (get o "disabled") = false.
Hypothesis Hrow : truthy (get o "isGroupLabel") = false.
Hypothesis Hkey : o !! "checked" = None.
Hypothesis Hsingle : singleSelectionOn ss = true → noCheckedKey os.

Lemma reduce_select :
  reduce ss excl i os = <[i := <["checked" := VStr "on"]> o]> os.
Proof.
  unfold reduce. rewrite Ho, Hrow, Henabled. unfold get, strictEq.
  rewrite Hkey.
  simpl. destruct (singleSelectionOn ss); [|done].
  rewrite (delete_id _ _ Hkey). f_equal.
  specialize (Hsingle eq_refl). clear -Hsingle.
  induction Hsingle as [|x xs Hx _ IH]; [done|].
  by rewrite fmap_cons, (delete_id _ _ Hx), IH.
Qed.

Lemma selected_lookup :
  <[i := <["checked" := VStr "on"]> o]> os !! i
  = Some (<["checked" := VStr "on"]> o).
Proof. apply list_lookup_insert_eq. by eapply lookup_lt_Some. Qed.

Lemma reduce_select_deselect :
  ss ≠ SingleAlways → exclusionsOn excl = false →
  reduce ss excl i (reduce ss excl i os) = os.
Proof.
  intros Hal Hex. rewrite reduce_select. unfold reduce.
  rewrite selected_lookup. unfold get, strictEq in *.
  rewrite !lookup_insert_ne by done. rewrite Hrow, Henabled.
  rewrite lookup_insert_eq. simpl. rewrite Hex. simpl.
  rewrite (bool_decide_false _ Hal).
  rewrite list_insert_insert_eq, (delete_insert_id _ _ _ Hkey).
  by apply list_insert_id.
Qed.

Lemma reduce_select_exclude :
  exclusionsOn excl = true →
  reduce ss excl i (reduce ss excl i os)
  = <[i := <["checked" := VStr "off"]> o]> os.
Proof.
  intros Hex. rewrite reduce_select. unfold reduce.
  rewrite selected_lookup. unfold get, strictEq in *.
  rewrite !lookup_insert_ne by done. rewrite Hrow, Henabled.
  rewrite lookup_insert_eq. simpl. rewrite Hex. simpl.
  by rewrite list_insert_insert_eq, insert_insert_eq.
Qed.

Lemma reduce_select_exclude_clear :
  ss ≠ SingleAlways → exclusionsOn excl = true →
  reduce ss excl i (reduce ss excl i (reduce ss excl i os)) = os.
Proof.
  intros Hal Hex. rewrite reduce_select_exclude by done. unfold reduce.
  rewrite list_lookup_insert_eq by (by eapply lookup_lt_Some).
  unfold get, strictEq in *.
  rewrite !lookup_insert_ne by done. rewrite Hrow, Henabled.
  rewrite lookup_insert_eq. simpl.
  rewrite (bool_decide_false _ Hal).
  rewrite list_insert_insert_eq, (delete_insert_id _ _ _ Hkey).
  by apply list_insert_id.
Qed.

End Cycle.

Lemma foldl_reduce_others ss excl rows : ∀ os j,
  singleSelectionOn ss = false → j ∉ rows →
  foldl (λ os i, reduce ss excl i os) os rows !! j = os !! j.
Proof.
  induction rows as [|i rows IH]; intros os j Hss Hj; [done|].
  apply not_elem_of_cons in Hj as [Hne Hj]. simpl.
  rewrite IH by done. by apply reduce_others.
Qed.

Lemma zip_with_miss (f : loc → gmap string val → gmap string val)
    (k : gmap string val → gmap string val) opt (arr : list loc) : ∀ os,
  (∀ l x, l ≠ opt → f l x = k x) →
  opt ∉ arr → length arr = length os →
  zip_with f arr os = k <$> os.
Proof.
  induction arr as [|l arr IH]; intros [|o os] Hf Hout Hlen; simplify_eq/=;
    [done|].
  apply not_elem_of_cons in Hout as [Hne Hout].
  rewrite Hf by done. f_equal. by apply IH.
Qed.

(** The example lists are shown by their props. *)
Ltac shows arr :=
  exists arr; split_and!; [reflexivity | reflexivity | compute_done].

Ltac rows_exist :=
  repeat first [ apply Forall_nil_2 | apply Forall_cons_2; [simpl; lia|] ].

(** X1. The list is a controlled reducer.  For options held by pairwise
    distinct references, any run of clicks on existing rows, the owner
    re-rendering with each array it is handed, returns, and the options shown
    in the end are those obtained by folding the store-free function [reduce]
    over the clicked rows, a click on a group label or on a disabled option
    being a step that changes nothing; the selection props are never
    changed. *)
Theorem clicks_refine_reduce P s arr os rows :
  getArr (heap s) (options P) = Some arr →
  mapM (getObj (heap s)) arr = Some os →
  NoDup arr →
  Forall (λ i, i < length os) rows →
  ∃ P' s',
    clicks P s rows = Some (P', s')
    ∧ readOptions (heap s') (options P')
      = Some (foldl (λ os i,
                reduce (singleSelection P) (allowExclusions P) i os) os rows)
    ∧ singleSelection P' = singleSelection P
    ∧ allowExclusions P' = allowExclusions P.
Proof.
  intros Ha Hos Hnd Hrows.
  assert (Hsh : shown P s os) by (by exists arr).
  destruct (clicks_steps rows P s os Hsh Hrows)
    as (P' & s' & Hc & Hsh' & Hss & Hex).
  exists P', s'. split_and!; [done| |done..]. by apply shown_read.
Qed.

Lemma clicks_refine_reduce_witness :
  let P := fruitProps (SingleBool true) (Some true) in
  ∃ P' s',
    clicks P fruitState [0; 1; 2; 0] = Some (P', s')
    ∧ readOptions (heap s') (options P')
      = Some (foldl (λ os i,
                reduce (singleSelection P) (allowExclusions P) i os)
                fruitObjects [0; 1; 2; 0])
    ∧ singleSelection P' = singleSelection P
    ∧ allowExclusions P' = allowExclusions P.
Proof.
  apply (clicks_refine_reduce (fruitProps (SingleBool true) (Some true))
           fruitState [0; 1; 2] fruitObjects [0; 1; 2; 0]).
  - reflexivity.
  - reflexivity.
  - compute_done.
  - rows_exist.
Defined.



(** X3. Single selection is an invariant of lists whose options are
    pairwise distinct objects: with [singleSelection] true or 'always', if at
    most one option is "on" then after any run of clicks at most one option
    is "on". *)
Theorem clicks_keep_at_most_one_on P s arr os rows :
  getArr (heap s) (options P) = Some arr →
  mapM (getObj (heap s)) arr = Some os →
  NoDup arr →
  Forall (λ i, i < length os) rows →
  singleSelectionOn (singleSelection P) = true →
  countOn os ≤ 1 →
  ∃ P' s' os',
    clicks P s rows = Some (P', s')
    ∧ readOptions (heap s') (options P') = Some os'
    ∧ countOn os' ≤ 1.
Proof.
  intros Ha Hos Hnd Hrows Hss Hone.
  assert (Hsh : shown P s os) by (by exists arr).
  destruct (clicks_steps rows P s os Hsh Hrows)
    as (P' & s' & Hc & Hsh' & _).
  eexists P', s', _. split_and!; [done|by apply shown_read|].
  apply (foldl_reduce_invariant _ _ (λ os, countOn os ≤ 1)); [|done].
  intros i os'. by apply reduce_at_most_one.
Qed.

Lemma clicks_keep_at_most_one_on_witness :
  ∃ P' s' os',
    clicks (fruitProps (SingleBool true) (Some true)) fruitState [0; 0; 1; 2]
    = Some (P', s')
    ∧ readOptions (heap s') (options P') = Some os'
    ∧ countOn os' ≤ 1.
Proof.
  apply (clicks_keep_at_most_one_on (fruitProps (SingleBool true) (Some true))
           fruitState [0; 1; 2] fruitObjects [0; 0; 1; 2]).
  - reflexivity.
  - reflexivity.
  - compute_done.
  - rows_exist.
  - reflexivity.
  - compute_done.
Defined.

(** X4. In 'always' mode without exclusions exactly one option stays
    selected, for options that are pairwise distinct objects: if exactly one
    option is "on", then after any run of clicks exactly one option is
    "on". *)
Theorem clicks_keep_exactly_one_on P s arr os rows :
  getArr (heap s) (options P) = Some arr →
  mapM (getObj (heap s)) arr = Some os →
  NoDup arr →
  Forall (λ i, i < length os) rows →
  singleSelection P = SingleAlways →
  exclusionsOn (allowExclusions P) = false →
  countOn os = 1 →
  ∃ P' s' os',
    clicks P s rows = Some (P', s')
    ∧ readOptions (heap s') (options P') = Some os'
    ∧ countOn os' = 1.
Proof.
  intros Ha Hos Hnd Hrows Hal Hex Hone.
  assert (Hsh : shown P s os) by (by exists arr).
  destruct (clicks_steps rows P s os Hsh Hrows)
    as (P' & s' & Hc & Hsh' & _).
  eexists P', s', _. split_and!; [done|by apply shown_read|].
  apply (foldl_reduce_invariant _ _ (λ os, countOn os = 1)); [|done].
  intros i os'. by apply reduce_always_one.
Qed.

Lemma clicks_keep_exactly_one_on_witness :
  ∃ P' s' os',
    clicks (fruitProps SingleAlways None) fruitState [1; 0; 0; 2; 1]
    = Some (P', s')
    ∧ readOptions (heap s') (options P') = Some os'
    ∧ countOn os' = 1.
Proof.
  apply (clicks_keep_exactly_one_on (fruitProps SingleAlways None)
           fruitState [0; 1; 2] fruitObjects [1; 0; 0; 2; 1]).
  - reflexivity.
  - reflexivity.
  - compute_done.
  - rows_exist.
  - reflexivity.
  - reflexivity.
  - compute_done.
Defined.



(** X6. With single selection off and options that are pairwise distinct
    objects, clicks change only the rows clicked: an option whose row is not
    among the clicked ones is shown in the end exactly as it was. *)
Theorem clicks_leave_other_rows P s arr os rows j :
  getArr (heap s) (options P) = Some arr →
  mapM (getObj (heap s)) arr = Some os →
  NoDup arr →
  Forall (λ i, i < length os) rows →
  singleSelectionOn (singleSelection P) = false →
  j ∉ rows →
  ∃ P' s' os',
    clicks P s rows = Some (P', s')
    ∧ readOptions (heap s') (options P') = Some os'
    ∧ os' !! j = os !! j.
Proof.
  intros Ha Hos Hnd Hrows Hss Hj.
  assert (Hsh : shown P s os) by (by exists arr).
  destruct (clicks_steps rows P s os Hsh Hrows)
    as (P' & s' & Hc & Hsh' & _).
  eexists P', s', _. split_and!; [done|by apply shown_read|].
  by apply foldl_reduce_others.
Qed.

Lemma clicks_leave_other_rows_witness :
  ∃ P' s' os',
    clicks (fruitProps (SingleBool false) (Some true)) fruitState [0; 0; 2; 0]
    = Some (P', s')
    ∧ readOptions (heap s') (options P') = Some os'
    ∧ os' !! 1 = fruitObjects !! 1.
Proof.
  apply (clicks_leave_other_rows (fruitProps (SingleBool false) (Some true))
           fruitState [0; 1; 2] fruitObjects [0; 0; 2; 0] 1).
  - reflexivity.
  - reflexivity.
  - compute_done.
  - rows_exist.
  - reflexivity.
  - compute_done.
Defined.

(** X7. Selecting and deselecting is a round trip.  For options that are
    pairwise distinct objects, without exclusions and outside 'always' mode,
    two clicks on an enabled option that is not a group label and has no
    [checked] key give back the options exactly as they were (in single
    selection, provided no other option carries a [checked] key that the
    first click would clear). *)
Theorem click_twice_restores P s arr os i o :
  getArr (heap s) (options P) = Some arr →
  mapM (getObj (heap s)) arr = Some os →
  NoDup arr →
  os !! i = Some o →
  truthy (get o "disabled") = false →
  truthy (get o "isGroupLabel") = false →
  o !! "checked" = None →
  singleSelection P ≠ SingleAlways →
  exclusionsOn (allowExclusions P) = false →
  (singleSelectionOn (singleSelection P) = true → noCheckedKey os) →
  ∃ P' s',
    clicks P s [i; i] = Some (P', s')
    ∧ readOptions (heap s') (options P') = Some os.
Proof.
  intros Ha Hos Hnd Ho Hd Hg Hkey Hal Hex Hsingle.
  assert (Hsh : shown P s os) by (by exists arr).
  assert (Hi : i < length os) by (by eapply lookup_lt_Some).
  destruct (clicks_steps [i; i] P s os Hsh) as (P' & s' & Hc & Hsh' & _).
  { by repeat constructor. }
  exists P', s'. split; [done|].
  rewrite (shown_read _ _ _ Hsh'). simpl.
  by rewrite (reduce_select_deselect _ _ i os o).
Qed.

Lemma click_twice_restores_witness :
  ∃ P' s',
    clicks (fruitProps SingleUnset None) fruitState [0; 0] = Some (P', s')
    ∧ readOptions (heap s') (options P') = Some fruitObjects.
Proof.
  apply (click_twice_restores (fruitProps SingleUnset None) fruitState
           [0; 1; 2] fruitObjects 0 {[ "label" := VStr "apple" ]}).
  - reflexivity.
  - reflexivity.
  - compute_done.
  - reflexivity.
  - reflexivity.
  - reflexivity.
  - reflexivity.
  - discriminate.
  - reflexivity.
  - discriminate.
Defined.

(** X8. With exclusions allowed (and outside 'always' mode) an option
    cycles through three states.  For options that are pairwise distinct
    objects, two clicks on an enabled option that is not a group label and
    has no [checked] key leave it "off" and every other option as it was,
    and the third click gives back the options exactly as they were (same
    proviso in single selection). *)
Theorem click_thrice_cycles P s arr os i o :
  getArr (heap s) (options P) = Some arr →
  mapM (getObj (heap s)) arr = Some os →
  NoDup arr →
  os !! i = Some o →
  truthy (get o "disabled") = false →
  truthy (get o "isGroupLabel") = false →
  o !! "checked" = None →
  singleSelection P ≠ SingleAlways →
  exclusionsOn (allowExclusions P) = true →
  (singleSelectionOn (singleSelection P) = true → noCheckedKey os) →
  (∃ P' s',
     clicks P s [i; i] = Some (P', s')
     ∧ readOptions (heap s') (options P')
       = Some (<[i := <["checked" := VStr "off"]> o]> os))
  ∧ (∃ P' s',
     clicks P s [i; i; i] = Some (P', s')
     ∧ readOptions (heap s') (options P') = Some os).
Proof.
  intros Ha Hos Hnd Ho Hd Hg Hkey Hal Hex Hsingle.
  assert (Hsh : shown P s os) by (by exists arr).
  assert (Hi : i < length os) by (by eapply lookup_lt_Some).
  split.
  - destruct (clicks_steps [i; i] P s os Hsh) as (P' & s' & Hc & Hsh' & _).
    { by repeat constructor. }
    exists P', s'. split; [done|].
    rewrite (shown_read _ _ _ Hsh'). simpl.
    by rewrite (reduce_select_exclude _ _ i os o).
  - destruct (clicks_steps [i; i; i] P s os Hsh)
      as (P' & s' & Hc & Hsh' & _).
    { by repeat constructor. }
    exists P', s'. split; [done|].
    rewrite (shown_read _ _ _ Hsh'). simpl.
    by rewrite (reduce_select_exclude_clear _ _ i os o).
Qed.

Lemma click_thrice_cycles_witness :
  let P := fruitProps (SingleBool true) (Some true) in
  (∃ P' s',
     clicks P unselectedState [1; 1] = Some (P', s')
     ∧ readOptions (heap s') (options P')
       = Some (<[1 := <["checked" := VStr "off"]>
                        {[ "label" := VStr "pear" ]}]> unselectedObjects))
  ∧ (∃ P' s',
     clicks P unselectedState [1; 1; 1] = Some (P', s')
     ∧ readOptions (heap s') (options P') = Some unselectedObjects).
Proof.
  apply (click_thrice_cycles (fruitProps (SingleBool true) (Some true))
           unselectedState [0; 1; 2] unselectedObjects 1
           {[ "label" := VStr "pear" ]}).
  - reflexivity.
  - reflexivity.
  - compute_done.
  - reflexivity.
  - reflexivity.
  - reflexivity.
  - reflexivity.
  - discriminate.
  - reflexivity.
  - intros _. repeat constructor.
Defined.

(** X9. Options are found by reference.  A handler called with an object
    that is not itself an element of [options] (a copy of an option, say)
    toggles nothing: add hands over the options unchanged, or all cleared
    under single selection, with nothing set "on"; remove and exclude hand
    over the options unchanged; exclude still writes "off" on the object it
    was given. *)
Theorem toggle_of_foreign_reference P opt s arr os :
  getArr (heap s) (options P) = Some arr →
  mapM (getObj (heap s)) arr = Some os →
  opt ∉ arr →
  (∃ s' a',
     onAddOption P opt s = Some s'
     ∧ handed s s' = Some a'
     ∧ readOptions (heap s') a'
       = Some (if singleSelectionOn (singleSelection P)
               then delete "checked" <$> os else os))
  ∧ (∃ s' a',
     onRemoveOption P opt s = Some s'
     ∧ handed s s' = Some a'
     ∧ readOptions (heap s') a' = Some os)
  ∧ (∀ o, getObj (heap s) opt = Some o →
     ∃ s' a',
       onExcludeOption P opt s = Some s'
       ∧ handed s s' = Some a'
       ∧ readOptions (heap s') a' = Some os
       ∧ getObj (heap s') opt = Some (<["checked" := VStr "off"]> o)).
Proof.
  intros Ha Hos Hout.
  pose proof Hos as Hlen. apply mapM_Some, Forall2_length in Hlen.
  assert (Hadd : zip_with (addUpdated (singleSelection P) opt) arr os
                 = if singleSelectionOn (singleSelection P)
                   then delete "checked" <$> os else os).
  { destruct (singleSelectionOn (singleSelection P)) eqn:Hss.
    - apply zip_with_miss with opt; [|done..]. intros l x Hne.
      unfold addUpdated. by rewrite Hss, bool_decide_false.
    - rewrite <- (list_fmap_id os) at 2.
      apply zip_with_miss with opt; [|done..]. intros l x Hne.
      unfold addUpdated. by rewrite Hss, bool_decide_false. }
  assert (Hrem : zip_with (removeUpdated (singleSelection P) opt) arr os = os).
  { rewrite <- (list_fmap_id os) at 2.
    apply zip_with_miss with opt; [|done..]. intros l x Hne.
    unfold removeUpdated. by rewrite bool_decide_false. }
  assert (Hexc : zip_with (excludeUpdated opt) arr os = os).
  { rewrite <- (list_fmap_id os) at 2.
    apply zip_with_miss with opt; [|done..]. intros l x Hne.
    unfold excludeUpdated. by rewrite bool_decide_false. }
  split_and!.
  - eexists _, _. split; [by apply onAddOption_built|]. split.
    + apply (handed_app s _ [Toggle Add opt]).
    + simpl. rewrite Hadd. apply built_read_at.
      destruct (singleSelectionOn _); by rewrite ?length_fmap.
  - eexists _, _. split; [by apply onRemoveOption_built|]. split.
    + apply (handed_app s _ [Toggle Remove opt]).
    + simpl. rewrite Hrem. by apply built_read_at.
  - intros o Ho. eexists _, _.
    split; [by apply onExcludeOption_built|]. split_and!.
    + apply (handed_app s _ [Toggle Exclude opt]).
    + simpl. rewrite Hexc.
      rewrite <- (length_insert (heap s) opt
                    (CObj (<["checked" := VStr "off"]> o))).
      by apply built_read_at.
    + simpl. apply getObj_CObj, built_old, list_lookup_insert_eq.
      by eapply getObj_lt.
Qed.

Lemma toggle_of_foreign_reference_witness :
  let P := twiceProps (SingleBool true) (Some true) in
  let s := {| heap := twice ++ [CObj {[ "label" := VStr "apple" ]}];
              trace := [] |} in
  let os := [ ({[ "label" := VStr "apple" ]} : gmap string val);
              {[ "label" := VStr "apple" ]} ] in
  (∃ s' a',
     onAddOption P 2 s = Some s'
     ∧ handed s s' = Some a'
     ∧ readOptions (heap s') a'
       = Some (if singleSelectionOn (singleSelection P)
               then delete "checked" <$> os else os))
  ∧ (∃ s' a',
     onRemoveOption P 2 s = Some s'
     ∧ handed s s' = Some a'
     ∧ readOptions (heap s') a' = Some os)
  ∧ (∀ o, getObj (heap s) 2 = Some o →
     ∃ s' a',
       onExcludeOption P 2 s = Some s'
       ∧ handed s s' = Some a'
       ∧ readOptions (heap s') a' = Some os
       ∧ getObj (heap s') 2 = Some (<["checked" := VStr "off"]> o)).
Proof.
  apply (toggle_of_foreign_reference (twiceProps (SingleBool true) (Some true))
           2 {| heap := twice ++ [CObj {[ "label" := VStr "apple" ]}];
                trace := [] |} [0; 0]).
  - reflexivity.
  - reflexivity.
  - compute_done.
Defined.

Lemma reduce_disabled_stays ss excl i j os :
  (∃ o, os !! j = Some o ∧ truthy (get o "disabled") = true ∧ ¬ isOn o) →
  ∃ o, reduce ss excl i os !! j = Some o
       ∧ truthy (get o "disabled") = true ∧ ¬ isOn o.
Proof.
  intros (o & Ho & Hd & Hon).
  assert (Hdel : truthy (get (delete "checked" o) "disabled") = true
                 ∧ ¬ isOn (delete "checked" o)).
  { split; [|apply not_isOn_delete].
    unfold get in *. by rewrite lookup_delete_ne. }
  unfold reduce. destruct (os !! i) as [oi|] eqn:Hi; [|by exists o].
  destruct (decide (i = j)) as [->|Hne].
  { assert (oi = o) as -> by congruence. rewrite Hd.
    exists o. split_and!; [|done..].
    destruct (truthy (get o "isGroupLabel")); exact Ho. }
  repeat case_match; try (by exists o);
    rewrite list_lookup_insert_ne by done;
    rewrite ?list_lookup_fmap, Ho; simpl; eauto.
Qed.



End ControlledListFacts.

(** ** The selectable list: refs, ids, rows and height *)

Module SelectableListViewFacts.
Import Js JsFacts SelectableList SelectableListFacts SelectableListView.

Lemma multiselectable_iff ss :
  negb (bool_decide (ss = SingleAlways))
  && negb (bool_decide (ss = SingleBool true))
  = negb (singleSelectionOn ss).
Proof. by destruct ss as [|[]|]. Qed.

(** X10. When the [ul] is attached, [setListBoxRef] gives it the id of the
    listbox and the role "listBox", [tabindex] "0" unless the list is
    searchable, and [aria-multiselectable] "true" exactly when
    [singleSelection] is falsy, which is when [onAddOption] keeps the other
    selections; it leaves every other attribute, and an attribute it does not
    set this time, as it found it.  Detaching ([null]) touches nothing. *)
Theorem listbox_attributes rootId P el v :
  let v' := setListBoxRef rootId P (Some el) v in
  (∃ el',
     listBoxRef v' = Some el'
     ∧ el' !! "id" = Some (rootId (Some "listbox"))
     ∧ el' !! "role" = Some "listBox"
     ∧ el' !! "tabindex"
       = (if bool_decide (searchable P = Some true) then el !! "tabindex"
          else Some "0")
     ∧ el' !! "aria-multiselectable"
       = (if singleSelectionOn (singleSelection (selection P))
          then el !! "aria-multiselectable" else Some "true")
     ∧ ∀ k, k ∉ ["id"; "role"; "tabindex"; "aria-multiselectable"] →
         el' !! k = el !! k)
  ∧ listRef v' = listRef v
  ∧ scrolls v' = scrolls v
  ∧ setListBoxRef rootId P None v
    = {| listRef := listRef v; listBoxRef := None; scrolls := scrolls v |}.
Proof.
  intros v'. unfold v', setListBoxRef.
  rewrite multiselectable_iff.
  destruct (bool_decide (searchable P = Some true)),
    (singleSelectionOn (singleSelection (selection P))); simpl;
    (split_and!; [|done..]); eexists; (split; [reflexivity|]);
    split_and!; try (by simplify_map_eq);
    intros k Hk; repeat (apply not_elem_of_cons in Hk as [? Hk]);
    by simplify_map_eq.
Qed.

Lemma numberToString_inj i j : numberToString i = numberToString j → i = j.
Proof.
  unfold numberToString. intros H.
  apply DecimalNat.Unsigned.to_uint_inj.
  apply (f_equal DecimalString.NilEmpty.uint_of_string) in H.
  rewrite !DecimalString.NilEmpty.usu in H. congruence.
Qed.

Lemma append_cancel_l (p a b : string) : p +:+ a = p +:+ b → a = b.
Proof. induction p as [|c p IH]; simpl; [done|]. intros [= H]. auto. Qed.

(** X12. Option ids are unique: if the id generator gives different ids to
    different appendices, [makeOptionId] gives different ids to different
    row indices, and never the id of the listbox. *)
Theorem row_ids_distinct (rootId : option string → string) :
  (∀ a b, rootId (Some a) = rootId (Some b) → a = b) →
  (∀ i j, makeOptionId rootId (Some i) = makeOptionId rootId (Some j) →
          i = j)
  ∧ (∀ i, makeOptionId rootId (Some i) ≠ rootId (Some "listbox")).
Proof.
  intros Hinj. split.
  - intros i j H. apply Hinj in H.
    by apply numberToString_inj, (append_cancel_l "_option-").
  - intros i H. apply Hinj in H. discriminate H.
Qed.

Lemma row_ids_distinct_witness :
  (∀ i j, makeOptionId prefixed (Some i) = makeOptionId prefixed (Some j) →
          i = j)
  ∧ (∀ i, makeOptionId prefixed (Some i) ≠ prefixed (Some "listbox")).
Proof.
  apply (row_ids_distinct prefixed).
  intros a b H. exact (append_cancel_l "list" a b H).
Defined.

(** X13. An update scrolls the list to the active option whatever its
    index; attaching the list ref scrolls to it only when the index is not 0,
    because the ref callback tests the index for truthiness. *)
Theorem scroll_to_active_option rootId P r n v :
  activeOptionIndex P = Some n →
  listRef v = Some r →
  scrolls (componentDidUpdate rootId P v) = scrolls v ++ [(r, n)]
  ∧ scrolls (setListRef P (Some r) v)
    = scrolls v ++ (if decide (n = 0) then [] else [(r, n)])
  ∧ listRef (setListRef P (Some r) v) = Some r.
Proof.
  intros Hn Hr. unfold componentDidUpdate, setListRef. rewrite Hn.
  split_and!.
  - destruct (listBoxRef v); simpl; by rewrite Hr.
  - destruct n; simpl; [by rewrite app_nil_r|done].
  - by destruct n.
Qed.

Lemma scroll_to_active_option_witness :
  let v := {| listRef := Some 4; listBoxRef := None; scrolls := [] |} in
  scrolls (componentDidUpdate prefixed (fruitList (Some 0)) v)
  = scrolls v ++ [(4, 0)]
  ∧ scrolls (setListRef (fruitList (Some 0)) (Some 4) v)
    = scrolls v ++ (if decide (0 = 0) then [] else [(4, 0)])
  ∧ listRef (setListRef (fruitList (Some 0)) (Some 4) v) = Some 4.
Proof.
  apply (scroll_to_active_option prefixed (fruitList (Some 0)) 4 0
           {| listRef := Some 4; listBoxRef := None; scrolls := [] |});
    reflexivity.
Defined.

(** Whatever handler runs, it hands over copies of all the options. *)
Lemma run_hands_copies t P opt s arr os o :
  getArr (heap s) (options P) = Some arr →
  mapM (getObj (heap s)) arr = Some os →
  getObj (heap s) opt = Some o →
  ∃ s' a' os',
    DispatchRule.run t P opt s = Some s'
    ∧ handed s s' = Some a'
    ∧ readOptions (heap s') a' = Some os'
    ∧ Forall2 sameButChecked os os'.
Proof.
  intros Ha Hos Ho.
  pose proof Hos as Hlen. apply mapM_Some, Forall2_length in Hlen.
  destruct t; simpl.
  - eexists _, _, _. split; [by apply onExcludeOption_built|]. split_and!.
    + apply (handed_app s _ [Toggle Exclude opt]).
    + simpl.
      rewrite <- (length_insert (heap s) opt
                    (CObj (<["checked" := VStr "off"]> o))).
      apply built_read_at. rewrite length_zip_with. lia.
    + apply zip_with_sameButChecked; [done|]. apply excludeUpdated_same.
  - eexists _, _, _. split; [by apply onRemoveOption_built|]. split_and!.
    + apply (handed_app s _ [Toggle Remove opt]).
    + simpl. apply built_read_at. rewrite length_zip_with. lia.
    + apply zip_with_sameButChecked; [done|]. apply removeUpdated_same.
  - eexists _, _, _. split; [by apply onAddOption_built|]. split_and!.
    + apply (handed_app s _ [Toggle Add opt]).
    + simpl. apply built_read_at. rewrite length_zip_with. lia.
    + apply zip_with_sameButChecked; [done|]. apply addUpdated_same.
Qed.

(** X14. Rows act on the full list.  A click on a row of the (possibly
    filtered) visible list does nothing when the row is a group label; on
    any other enabled row it runs the click handler on that row's object,
    and the owner is handed copies of all of [options], not of the visible
    ones. *)
Theorem rowClick_acts_on_full_list P index s data l o arr os :
  getArr (heap s) (itemData P) = Some data →
  data !! index = Some l →
  getObj (heap s) l = Some o →
  getArr (heap s) (options (selection P)) = Some arr →
  mapM (getObj (heap s)) arr = Some os →
  (truthy (get o "isGroupLabel") = true → rowClick P index s = Some s)
  ∧ (truthy (get o "isGroupLabel") = false →
     truthy (get o "disabled") = false →
     ∃ s' a' os',
       rowClick P index s = Some s'
       ∧ onAddOrRemoveOption (selection P) l s = Some s'
       ∧ handed s s' = Some a'
       ∧ readOptions (heap s') a' = Some os'
       ∧ Forall2 sameButChecked os os').
Proof.
  intros Hd Hl Ho Ha Hos. unfold rowClick. rewrite Hd, Hl, Ho. split.
  - by intros ->.
  - intros -> Hen.
    rewrite (onAddOrRemoveOption_rule (selection P) l s o Ho Hen).
    destruct (run_hands_copies
                (DispatchRule.rule (get o "checked")
                   (exclusionsOn (allowExclusions (selection P))))
                (selection P) l s arr os o Ha Hos Ho)
      as (s' & a' & os' & Hrun & Hh & Hr & Hs).
    by exists s', a', os'.
Qed.

Lemma rowClick_acts_on_full_list_witness :
  let s := {| heap := filtered; trace := [] |} in
  let pear := <["checked" := VStr "on"]> {[ "label" := VStr "pear" ]} in
  (truthy (get pear "isGroupLabel") = true →
   rowClick filteredList 1 s = Some s)
  ∧ (truthy (get pear "isGroupLabel") = false →
     truthy (get pear "disabled") = false →
     ∃ s' a' os',
       rowClick filteredList 1 s = Some s'
       ∧ onAddOrRemoveOption (selection filteredList) 1 s = Some s'
       ∧ handed s s' = Some a'
       ∧ readOptions (heap s') a' = Some os'
       ∧ Forall2 sameButChecked fruitObjects os').
Proof.
  apply (rowClick_acts_on_full_list filteredList 1
           {| heap := filtered; trace := [] |} [4; 1; 2] 1
           (<["checked" := VStr "on"]> {[ "label" := VStr "pear" ]})
           [0; 1; 2] fruitObjects); reflexivity.
Defined.

(** A group label in the visible list: the click changes nothing. *)
Example group_label_click :
  rowClick filteredList 0 {| heap := filtered; trace := [] |}
  = Some {| heap := filtered; trace := [] |}.
Proof. reflexivity. Qed.

(** *** Height *)

Section Height.
Import QArith_base.
Local Open Scope Q_scope.

Lemma calculated_unset P n :
  height P = HeightUnset →
  calculatedHeight P n
  = Some (if (7 <? n)%nat then (inject_Z 7 - (1 # 2)) * inject_Z (rowHeight P)
          else inject_Z (Z.of_nat n) * inject_Z (rowHeight P)).
Proof. unfold calculatedHeight. intros ->. by destruct (7 <? n)%nat. Qed.

(** X15. With no height given and a row height that is not negative, the
    list is [n] rows high up to seven options and six and a half rows high
    beyond (so never higher than seven rows, and lower for eight options
    than for seven); and because [0] is falsy, an empty list or a zero row
    height falls back to the height [AutoSizer] measured, while any other
    case uses the computed height. *)
Theorem list_height_unset P n auto :
  height P = HeightUnset →
  (0 <= rowHeight P)%Z →
  ∃ h,
    calculatedHeight P n = Some h
    ∧ h <= inject_Z 7 * inject_Z (rowHeight P)
    ∧ ((n <= 7)%nat → h == inject_Z (Z.of_nat n) * inject_Z (rowHeight P))
    ∧ ((7 < n)%nat → h == (13 # 2) * inject_Z (rowHeight P))
    ∧ (n = 0%nat ∨ rowHeight P = 0%Z → listHeight P n auto = auto)
    ∧ (n ≠ 0%nat → rowHeight P ≠ 0%Z → listHeight P n auto = h).
Proof.
  intros Hu Hrh. eexists. split; [by apply calculated_unset|].
  unfold listHeight. rewrite (calculated_unset P n Hu).
  destruct (Nat.ltb_spec 7 n) as [Hn|Hn].
  - split_and!.
    + unfold Qle. simpl. lia.
    + lia.
    + intros _. unfold Qeq. simpl. lia.
    + intros [->| ->]; [lia|]. done.
    + intros _ Hnz. unfold Qeq_bool. simpl.
      destruct (Z.eqb_spec ((7 * 2 + - (1) * 1) * rowHeight P * 1)
                  (0 * Z.pos (1 * 2 * 1))); [lia|done].
  - split_and!.
    + unfold Qle. simpl. nia.
    + intros _. reflexivity.
    + lia.
    + intros [->| ->]; unfold Qeq_bool; simpl; [done|].
      destruct (Z.eqb_spec (Z.of_nat n * 0 * 1) (0 * Z.pos (1 * 1)));
        [done|lia].
    + intros Hn0 Hnz. unfold Qeq_bool. simpl.
      destruct (Z.eqb_spec (Z.of_nat n * rowHeight P * 1)
                  (0 * Z.pos (1 * 1))); [nia|done].
Qed.

Lemma list_height_unset_witness :
  ∃ h,
    calculatedHeight (fruitList None) 8 = Some h
    ∧ h <= inject_Z 7 * inject_Z (rowHeight (fruitList None))
    ∧ ((8 <= 7)%nat →
       h == inject_Z (Z.of_nat 8) * inject_Z (rowHeight (fruitList None)))
    ∧ ((7 < 8)%nat → h == (13 # 2) * inject_Z (rowHeight (fruitList None)))
    ∧ (8%nat = 0%nat ∨ rowHeight (fruitList None) = 0%Z →
       listHeight (fruitList None) 8 (inject_Z 500) = inject_Z 500)
    ∧ (8%nat ≠ 0%nat → rowHeight (fruitList None) ≠ 0%Z →
       listHeight (fruitList None) 8 (inject_Z 500) = h).
Proof.
  apply (list_height_unset (fruitList None) 8 (inject_Z 500)).
  - reflexivity.
  - simpl. lia.
Defined.

(** Eight rows of 32 pixels get 208 pixels, seven get 224, none get what
    [AutoSizer] measured. *)
Example heights_of_the_example :
  listHeight (fruitList None) 8 (inject_Z 500) == inject_Z 208
  ∧ listHeight (fruitList None) 7 (inject_Z 500) == inject_Z 224
  ∧ listHeight (fruitList None) 0 (inject_Z 500) = inject_Z 500.
Proof. split_and!; reflexivity. Qed.

End Height.

End SelectableListViewFacts.

(** ** The update button over whole runs *)

Module SuperUpdateButtonRunFacts.
Import SuperUpdateButton SuperUpdateButtonFacts.

(** X16. The tooltip that pops up by itself always has something to say:
    whenever [componentDidUpdate] would show the tooltip, [render] has given
    it the text "Click to apply", the button reads "Update" and is enabled;
    and that text is rendered exactly for an enabled button that needs an
    update and is not loading. *)
Theorem auto_tooltip_has_content p :
  shouldShow p = true →
  tooltipText p = Some "Click to apply"
  ∧ label p = "Update"
  ∧ buttonIsDisabled (render p) = false
  ∧ ∀ q, tooltipText q = Some "Click to apply" ↔
         isDisabled q = false ∧ needsUpdate q = true ∧ isLoading q = false.
Proof.
  intros Hs. apply shouldShow_true in Hs as (_ & Hn & Hd & Hl).
  unfold tooltipText, label, render. simpl. rewrite Hn, Hd, Hl.
  split_and!; [done..|].
  intros q. destruct (isDisabled q), (needsUpdate q), (isLoading q);
    simpl; intuition discriminate.
Qed.

Lemma auto_tooltip_has_content_witness :
  tooltipText actionable = Some "Click to apply"
  ∧ label actionable = "Update"
  ∧ buttonIsDisabled (render actionable) = false
  ∧ ∀ q, tooltipText q = Some "Click to apply" ↔
         isDisabled q = false ∧ needsUpdate q = true ∧ isLoading q = false.
Proof. apply (auto_tooltip_has_content actionable). reflexivity. Defined.

(** X17. Label, colour and icon always agree: the button is "secondary"
    with the "kqlFunction" icon and a label other than "Refresh" when it
    needs an update or is loading, and "primary" with the "refresh" icon and
    the label "Refresh" otherwise; there is no tooltip text exactly when the
    button is enabled and either needs no update or is loading. *)
Theorem render_is_consistent p :
  (if needsUpdate p || isLoading p
   then color (render p) = "secondary"
        ∧ iconType (render p) = "kqlFunction"
        ∧ label p = (if isLoading p then "Updating" else "Update")
   else color (render p) = "primary"
        ∧ iconType (render p) = "refresh"
        ∧ label p = "Refresh")
  ∧ (tooltipText p = None ↔
     isDisabled p = false ∧ (needsUpdate p = false ∨ isLoading p = true))
  ∧ buttonIsDisabled (render p) = isDisabled p
  ∧ buttonIsLoading (render p) = isLoading p.
Proof.
  unfold tooltipText, label, render.
  destruct (isDisabled p), (needsUpdate p), (isLoading p); simpl;
    split_and!; try done; intuition discriminate.
Qed.

(** X20. Updates are not debounced: in a mounted component with the
    tooltip ref attached, [k] updates in a row with props that call for the
    tooltip show it [k] times and leave [k] more timers pending, each due
    2000 ms after the updates, the earlier ones untouched by the later. *)
Theorem updates_are_not_debounced p node k w :
  _isMounted w = true →
  tooltip w = Some node →
  shouldShow p = true →
  let w' := run (replicate k (DidUpdate p)) w in
  calls w' = calls w ++ replicate k (clock w, ShowToolTip node)
  ∧ timers w'
    = timers w
      ++ ((λ j, (nextTimerId w + j, (clock w + 2000)%N)) <$> seq 0 k)
  ∧ tooltipTimeout w'
    = (if decide (k = 0) then tooltipTimeout w
       else Some (nextTimerId w + k - 1)).
Proof.
  intros Hm Hn Hs. revert w Hm Hn.
  induction k as [|k IH]; intros w Hm Hn w'.
  { unfold w'. simpl. by rewrite !app_nil_r. }
  set (w1 := step (DidUpdate p) w).
  assert (Hw1 : w1 = setTimeout_hideTooltip 2000
                       (log (ShowToolTip node) (setProps p w))).
  { unfold w1. simpl. unfold componentDidUpdate.
    change (showTooltip (props (setProps p w)) && _ && _ && _)
      with (shouldShow p). rewrite Hs.
    unfold this_showTooltip. simpl. by rewrite Hm, Hn. }
  destruct (IH w1) as (Hc & Ht & Hto); [by rewrite Hw1..|].
  change w' with (run (replicate k (DidUpdate p)) w1).
  rewrite Hc, Ht, Hto. rewrite Hw1. simpl.
  split_and!.
  - by rewrite <- app_assoc.
  - rewrite <- app_assoc. f_equal. simpl.
    rewrite Nat.add_0_r. f_equal.
    rewrite <- fmap_S_seq, <- list_fmap_compose.
    apply list_fmap_ext. intros _ j _. simpl. f_equal. lia.
  - destruct k; simpl; f_equal; lia.
Qed.

Lemma updates_are_not_debounced_witness :
  let w' := run (replicate 3 (DidUpdate actionable)) justMounted in
  calls w'
  = calls justMounted ++ replicate 3 (clock justMounted, ShowToolTip 7)
  ∧ timers w'
    = timers justMounted
      ++ ((λ j, (nextTimerId justMounted + j,
                 (clock justMounted + 2000)%N)) <$> seq 0 3)
  ∧ tooltipTimeout w'
    = (if decide (3 = 0) then tooltipTimeout justMounted
       else Some (nextTimerId justMounted + 3 - 1)).
Proof.
  apply (updates_are_not_debounced actionable 7 3 justMounted); reflexivity.
Defined.

End SuperUpdateButtonRunFacts.
